(** * skinport.js: the [Skinport] client of [src/Skinport.ts]

    A shallow embedding of the class [Skinport]: its constructor (the axios
    instance with the [Authorization] header), the lazily created socket
    ([initSocket] and the [socket] getter) and the four marketplace calls
    ([getItems], [getSalesHistory], [getOutOfStock], [getTransactions]).

    Conventions.
    - A JavaScript string is a Rocq [string]: the text in its UTF-8 bytes,
      which is what [Buffer.from(s)] (default encoding ['utf8']) reads. A
      lone surrogate has no UTF-8 bytes of its own and [Buffer.from] writes
      U+FFFD for it, so two JavaScript strings that differ only there are
      one string here.
    - An optional argument ([clientId?: string]) is an [option].
    - Objects that are shared and mutated (the socket made by [io], the promise
      made by [new Promise]) live in a store and are named by their index.
    - What the program reaches outside itself is kept in the world: the
      sockets [io] has opened, the requests handed to axios, the console. *)

From Stdlib Require Import ZArith NArith List String Ascii Lia Bool DecimalString.
From stdpp Require Import base decidable option list strings gmap.

Local Open Scope string_scope.
Local Open Scope list_scope.
Local Open Scope N_scope.

(** ** [Buffer.from(s).toString('base64')] *)

Module Base64.

Definition alphabet : string :=
  "ABCDEFGHIJKLMNOPQRSTUVWXYZabcdefghijklmnopqrstuvwxyz0123456789+/".

Definition pad : ascii := "="%char.

(** The character of a 6-bit group. *)
Definition digit (i : N) : ascii :=
  match String.get (N.to_nat i) alphabet with
  | Some c => c
  | None => pad
  end.

(** Three bytes give four digits; a tail of one or two bytes is padded. *)
Fixpoint encode_bytes (bs : list N) : list ascii :=
  match bs with
  | [] => []
  | [a] =>
      [digit (N.shiftr a 2); digit (N.shiftl (N.land a 3) 4); pad; pad]
  | [a; b] =>
      [digit (N.shiftr a 2);
       digit (N.lor (N.shiftl (N.land a 3) 4) (N.shiftr b 4));
       digit (N.shiftl (N.land b 15) 2);
       pad]
  | a :: b :: c :: rest =>
      digit (N.shiftr a 2)
      :: digit (N.lor (N.shiftl (N.land a 3) 4) (N.shiftr b 4))
      :: digit (N.lor (N.shiftl (N.land b 15) 2) (N.shiftr c 6))
      :: digit (N.land c 63)
      :: encode_bytes rest
  end.

(** The bytes [Buffer.from(s)] holds. *)
Definition bytes_of (s : string) : list N :=
  map N_of_ascii (list_ascii_of_string s).

Definition encode (s : string) : string :=
  string_of_list_ascii (encode_bytes (bytes_of s)).

(** The reader's side, used to state what the encoding carries: the group
    of a digit, and four digits back to three bytes. *)
Fixpoint index_from (i : N) (cs : list ascii) (c : ascii) : option N :=
  match cs with
  | [] => None
  | d :: cs' => if Ascii.eqb c d then Some i else index_from (N.succ i) cs' c
  end.

Definition group (c : ascii) : option N :=
  index_from 0 (list_ascii_of_string alphabet) c.

Definition byte1 (g1 g2 : N) : N := N.lor (N.shiftl g1 2) (N.shiftr g2 4).
Definition byte2 (g2 g3 : N) : N := N.lor (N.shiftl (N.land g2 15) 4) (N.shiftr g3 2).
Definition byte3 (g3 g4 : N) : N := N.lor (N.shiftl (N.land g3 3) 6) g4.

Fixpoint decode_digits (fuel : nat) (cs : list ascii) : option (list N) :=
  match fuel with
  | O => match cs with [] => Some [] | _ => None end
  | S fuel' =>
      match cs with
      | [] => Some []
      | c1 :: c2 :: c3 :: c4 :: rest =>
          g1 ← group c1;
          g2 ← group c2;
          if Ascii.eqb c3 pad then
            if Ascii.eqb c4 pad
            then match rest with [] => Some [byte1 g1 g2] | _ => None end
            else None
          else
            g3 ← group c3;
            if Ascii.eqb c4 pad
            then match rest with [] => Some [byte1 g1 g2; byte2 g2 g3] | _ => None end
            else
              g4 ← group c4;
              tl ← decode_digits fuel' rest;
              Some (byte1 g1 g2 :: byte2 g2 g3 :: byte3 g3 g4 :: tl)
      | _ => None
      end
  end.

Definition decode (s : string) : option string :=
  let cs := list_ascii_of_string s in
  bs ← decode_digits (List.length cs) cs;
  Some (string_of_list_ascii (map ascii_of_N bs)).

(** The 6-bit groups cut from three bytes [a], [b], [c]. *)
Definition g1_of (a : N) : N := N.shiftr a 2.
Definition g2_of (a b : N) : N := N.lor (N.shiftl (N.land a 3) 4) (N.shiftr b 4).
Definition g3_of (b c : N) : N := N.lor (N.shiftl (N.land b 15) 2) (N.shiftr c 6).
Definition g4_of (c : N) : N := N.land c 63.

(** Every byte value, for checks by cases. *)
Definition bytes_below_256 : list N := map N.of_nat (seq 0 256).

End Base64.

Local Close Scope N_scope.

(** ** Values, requests and responses *)

(** A decoded JSON body or an option value. A JavaScript number is kept as
    an integer: the client forwards numbers and never computes with them. *)
#[warnings="-register-all"]
Inductive JsValue : Type :=
| JNull
| JBool (b : bool)
| JNumber (n : Z)
| JString (s : string)
| JArray (items : list JsValue)
| JObject (fields : list (string * JsValue)).

(** An option record as it is at run time: its own keys in insertion order. *)
Definition JsObject : Type := list (string * JsValue).

(** [axios.create({ baseURL, headers })]: what the constructor configures.
    The headers axios and its adapter add of their own ([Accept],
    [User-Agent], [Host]) are not part of it. *)
Record AxiosInstance : Type := {
  baseURL : string;
  headers : gmap string string
}.

(** What one [api.get(url, { params })] hands to axios: the call's own
    [url] and [params] over the defaults of the instance. *)
Record AxiosRequest : Type := {
  method : string;
  req_baseURL : string;
  url : string;
  req_headers : gmap string string;
  params : option JsObject
}.

Record AxiosResponse : Type := {
  status : Z;
  data : JsValue
}.

Record AxiosError : Type := {
  code : string;
  response : option AxiosResponse
}.

(** ** The socket and the promise *)

Record ManagerOptions : Type := {
  transports : list string;
  parser : string;
  secure : bool;
  rejectUnauthorized : bool;
  reconnection : bool
}.

Inductive SocketEvent : Type :=
| connect
| connect_error (err : string).

(** The two arrow functions [initSocket] registers. Each closes over the
    [resolve] or the [reject] of the promise it was created in. *)
Inductive Listener : Type :=
| OnConnect (p : nat)
| OnConnectError (p : nat).

(** An object returned by [io(uri, opts)]. *)
Record SocketObj : Type := {
  uri : string;
  opts : ManagerOptions;
  listeners : list Listener
}.

Inductive Promise : Type :=
| Pending
| Fulfilled
| Rejected (reason : string).

Record Error : Type := { message : string }.

(** ** The client and its world *)

Record Skinport : Type := {
  api : AxiosInstance;
  _socket : option nat
}.

Record World : Type := {
  this : Skinport;
  (** every object [io] has returned, oldest first; a socket is its index *)
  sockets : list SocketObj;
  (** every promise created, oldest first; a promise is its index *)
  promises : list Promise;
  (** each settlement that took effect, in order: what awaiters are told *)
  settled : list (nat * Promise);
  console : list string;
  (** every request handed to axios, oldest first *)
  wire : list AxiosRequest
}.

Definition with_this (t : Skinport) (w : World) : World :=
  {| this := t; sockets := sockets w; promises := promises w;
     settled := settled w; console := console w; wire := wire w |}.

Definition with_sockets (ss : list SocketObj) (w : World) : World :=
  {| this := this w; sockets := ss; promises := promises w;
     settled := settled w; console := console w; wire := wire w |}.

Definition with_promises (ps : list Promise) (w : World) : World :=
  {| this := this w; sockets := sockets w; promises := ps;
     settled := settled w; console := console w; wire := wire w |}.

Definition with_settled (l : list (nat * Promise)) (w : World) : World :=
  {| this := this w; sockets := sockets w; promises := promises w;
     settled := l; console := console w; wire := wire w |}.

Definition with_console (c : list string) (w : World) : World :=
  {| this := this w; sockets := sockets w; promises := promises w;
     settled := settled w; console := c; wire := wire w |}.

Definition with_wire (rs : list AxiosRequest) (w : World) : World :=
  {| this := this w; sockets := sockets w; promises := promises w;
     settled := settled w; console := console w; wire := rs |}.

(** ** The constructor *)

(** Truthiness of an optional string: [undefined] and [""] are falsy. *)
Definition truthy (s : option string) : bool :=
  match s with
  | Some s => negb (String.eqb s "")
  | None => false
  end.

(** [(clientId && clientSecret) ? `Basic ${...}` : ""] *)
Definition authorization (clientId clientSecret : option string) : string :=
  match clientId, clientSecret with
  | Some id, Some secret =>
      if truthy clientId && truthy clientSecret
      then "Basic " +:+ Base64.encode (id +:+ ":" +:+ secret)
      else ""
  | _, _ => ""
  end.

Definition axios_create (base : string) (hs : gmap string string) : AxiosInstance :=
  {| baseURL := base; headers := hs |}.

Definition constructor (clientId clientSecret : option string) : Skinport :=
  {| api := axios_create "https://api.skinport.com/v1"
              (<["Authorization" := authorization clientId clientSecret]>
                 (<["Accept-Encoding" := "br"]>
                    (<["Content-Type" := "application/json"]> ∅)));
     _socket := None |}.

(** The world just after [new Skinport(clientId, clientSecret)]. *)
Definition boot (clientId clientSecret : option string) : World :=
  {| this := constructor clientId clientSecret;
     sockets := []; promises := []; settled := []; console := []; wire := [] |}.

(** ** Promises *)

Definition new_promise (w : World) : World * nat :=
  (with_promises (promises w ++ [Pending]) w, length (promises w)).

(** [resolve()] and [reject(err)]: only a pending promise changes. *)
Definition settle (p : nat) (outcome : Promise) (w : World) : World :=
  match promises w !! p with
  | Some Pending =>
      with_settled (settled w ++ [(p, outcome)])
        (with_promises (<[p := outcome]> (promises w)) w)
  | _ => w
  end.

Definition resolve (p : nat) : World -> World := settle p Fulfilled.
Definition reject (p : nat) (err : string) : World -> World := settle p (Rejected err).

(** ** The socket: [initSocket], the transport's events, the getter *)

Definition io (u : string) (o : ManagerOptions) (w : World) : World * nat :=
  (with_sockets (sockets w ++ [{| uri := u; opts := o; listeners := [] |}]) w,
   length (sockets w)).

(** [this._socket.on(event, listener)] *)
Definition on (l : Listener) (w : World) : World :=
  match _socket (this w) with
  | Some s =>
      with_sockets
        (alter (fun so => {| uri := uri so; opts := opts so;
                             listeners := listeners so ++ [l] |}) s (sockets w)) w
  | None => w
  end.

Definition console_log (line : string) (w : World) : World :=
  with_console (console w ++ [line]) w.

(** The promise [p] is the one the caller holds. An [async] function makes
    it when it is called; [return;] fulfils it at once, and returning the
    [new Promise] makes it follow that promise, so the two are one here. The
    executor runs inside the call: the socket exists and both listeners are
    registered when [initSocket] returns. *)
Definition initSocket (w : World) : World * nat :=
  let (w, p) := new_promise w in
  match _socket (this w) with
  | Some _ => (resolve p w, p)
  | None =>
      let (w, s) := io "wss://skinport.com"
                      {| transports := ["websocket"]; parser := "socket.io-msgpack-parser";
                         secure := true; rejectUnauthorized := false;
                         reconnection := true |} w in
      let w := with_this {| api := api (this w); _socket := Some s |} w in
      let w := on (OnConnect p) w in
      let w := on (OnConnectError p) w in
      (w, p)
  end.

(** One listener run on one event. *)
Definition fire (ev : SocketEvent) (w : World) (l : Listener) : World :=
  match l, ev with
  | OnConnect p, connect =>
      resolve p (console_log "Connected to Skinport WebSocket" w)
  | OnConnectError p, connect_error err =>
      reject p err (console_log ("Connection Error: " +:+ err) w)
  | _, _ => w
  end.

(** The transport emits [ev] on socket [s]: its listeners run in the order
    they were registered. *)
Definition emit (s : nat) (ev : SocketEvent) (w : World) : World :=
  match sockets w !! s with
  | Some so => fold_left (fire ev) (listeners so) w
  | None => w
  end.

(** [get socket()] *)
Definition socket (w : World) : Error + nat :=
  match _socket (this w) with
  | None => inl {| message := "Socket not initialized. Call `initSocket()` first." |}
  | Some s => inr s
  end.

(** ** The marketplace calls *)

Section Marketplace.

(** The network and the server behind it: what axios answers to a request,
    given the requests sent before. The client does not choose it. *)
Variable remote : list AxiosRequest -> AxiosRequest -> AxiosError + AxiosResponse.

(** [this.api.get(path, { params })]: one request goes out. *)
Definition api_get (path : string) (ps : option JsObject) (w : World)
  : World * (AxiosError + AxiosResponse) :=
  let req := {| method := "get";
                req_baseURL := baseURL (api (this w));
                url := path;
                req_headers := headers (api (this w));
                params := ps |} in
  (with_wire (wire w ++ [req]) w, remote (wire w) req).

(** [(await ...).data]: a rejection passes through to the caller. *)
Definition body (r : AxiosError + AxiosResponse) : AxiosError + JsValue :=
  match r with
  | inl e => inl e
  | inr resp => inr (data resp)
  end.

(** [options] defaults to [{}] here, and only here. *)
Definition getItems (options : option JsObject) (w : World)
  : World * (AxiosError + JsValue) :=
  let options := Some (default [] options) in
  let (w, r) := api_get "/items" options w in (w, body r).

Definition getSalesHistory (options : option JsObject) (w : World)
  : World * (AxiosError + JsValue) :=
  let (w, r) := api_get "/sales/history" options w in (w, body r).

Definition getOutOfStock (options : option JsObject) (w : World)
  : World * (AxiosError + JsValue) :=
  let (w, r) := api_get "/sales/out-of-stock" options w in (w, body r).

Definition getTransactions (options : option JsObject) (w : World)
  : World * (AxiosError + JsValue) :=
  let (w, r) := api_get "/account/transactions" options w in (w, body r).

(** ** Runs of a client *)

Inductive Endpoint : Type := Items | SalesHistory | OutOfStock | Transactions.

Definition path_of (e : Endpoint) : string :=
  match e with
  | Items => "/items"
  | SalesHistory => "/sales/history"
  | OutOfStock => "/sales/out-of-stock"
  | Transactions => "/account/transactions"
  end.

Definition call (e : Endpoint) : option JsObject -> World -> World * (AxiosError + JsValue) :=
  match e with
  | Items => getItems
  | SalesHistory => getSalesHistory
  | OutOfStock => getOutOfStock
  | Transactions => getTransactions
  end.

(** What can happen to a client: a caller invokes a method or reads the
    getter, or the transport emits an event on a socket. *)
Inductive Op : Type :=
| CallInitSocket
| ReadSocket
| Call (e : Endpoint) (options : option JsObject)
| Emit (s : nat) (ev : SocketEvent).

Definition step (w : World) (o : Op) : World :=
  match o with
  | CallInitSocket => fst (initSocket w)
  | ReadSocket => w
  | Call e options => fst (call e options w)
  | Emit s ev => emit s ev w
  end.

Definition run (w : World) (ops : list Op) : World := fold_left step ops w.

End Marketplace.

(** ** Observations on a world and on a run *)

(** How many times promise [p] has been settled. *)
Definition settlements (p : nat) (w : World) : nat :=
  count_occ Nat.eq_dec (map fst (settled w)) p.

Definition is_init (o : Op) : bool :=
  match o with
  | CallInitSocket => true
  | _ => false
  end.

(** Whether [initSocket] was called in the run. *)
Definition invoked (ops : list Op) : bool := existsb is_init ops.

Definition is_rejected (o : Promise) : bool :=
  match o with
  | Rejected _ => true
  | _ => false
  end.

(** Whether a handshake has failed: a [connect_error] rejected the promise
    of an [initSocket] call. The client has no retry of its own, so such a
    failure is final for the client. *)
Definition failed (w : World) : bool :=
  existsb (fun e => is_rejected (snd e)) (settled w).

(** A promise counts once it is settled. *)
Definition weight (x : option Promise) : nat :=
  match x with
  | Some Pending | None => 0
  | Some _ => 1
  end.

(** What holds of every world a client can be in: [_socket], when set, is
    the one socket ever opened, and each promise has been settled exactly as
    many times as its state says. *)
Definition Inv (w : World) : Prop :=
  match _socket (this w) with
  | None => sockets w = []
  | Some s => s = 0 /\ length (sockets w) = 1
  end
  /\ forall p, settlements p w = weight (promises w !! p).

(** What the promise of a first [initSocket] becomes on an event. *)
Definition outcome (ev : SocketEvent) : Promise :=
  match ev with
  | connect => Fulfilled
  | connect_error err => Rejected err
  end.

(** Reading a property of an option record. *)
Fixpoint field (k : string) (o : JsObject) : option JsValue :=
  match o with
  | [] => None
  | (k', v) :: o' => if String.eqb k k' then Some v else field k o'
  end.

(** The query parameter [k] of a request, when it has one. *)
Definition param (k : string) (r : AxiosRequest) : option JsValue :=
  match params r with
  | Some o => field k o
  | None => None
  end.

(** ** The request line

    axios, not this repository, writes [params] into the query string:
    [key=value] pairs joined by [&], in the order of the record's keys, each
    key and value passed through a percent-encoder; a [null] value is left
    out, and no [?] is written when nothing is left. The encoder is a
    parameter here. Option values of the declared shapes are numbers, strings
    and booleans; for an array or an object the line is not given. *)

Section RequestLine.

Variable encode : string -> string.

(** An integer in plain decimal, as JavaScript prints the integers it holds
    exactly below 1e21. *)
Definition show_number (n : Z) : string := NilEmpty.string_of_int (Z.to_int n).

Fixpoint query (o : JsObject) : option (list string) :=
  match o with
  | [] => Some []
  | (k, v) :: o' =>
      rest ← query o';
      match v with
      | JNull => Some rest
      | JBool b => Some ((encode k +:+ "=" +:+ encode (if b then "true" else "false")) :: rest)
      | JNumber n => Some ((encode k +:+ "=" +:+ encode (show_number n)) :: rest)
      | JString s => Some ((encode k +:+ "=" +:+ encode s) :: rest)
      | JArray _ | JObject _ => None
      end
  end.

(** The path and query of a request, relative to [baseURL]. *)
Definition path_and_query (r : AxiosRequest) : option string :=
  match params r with
  | None => Some (url r)
  | Some o =>
      qs ← query o;
      Some (match qs with
            | [] => url r
            | _ => url r +:+ "?" +:+ String.concat "&" qs
            end)
  end.

End RequestLine.

(** ** Servers and options to run examples against *)

Definition offline (_ : list AxiosRequest) (_ : AxiosRequest) : AxiosError + AxiosResponse :=
  inl {| code := "ERR_NETWORK"; response := None |}.

(** A body of the shape [OutOfStockResponse]. *)
Definition sample_body : JsValue :=
  JArray [JObject [("market_hash_name", JString "Glove Case");
                   ("version", JNull);
                   ("currency", JString "EUR");
                   ("suggested_price", JNumber 3);
                   ("avg_sale_price", JNumber 2);
                   ("sales_last_90d", JNumber 12)]].

Definition canned (_ : list AxiosRequest) (_ : AxiosRequest) : AxiosError + AxiosResponse :=
  inr {| status := 200; data := sample_body |}.

(** [{ page: 1, limit: 100, order: "desc" }] *)
Definition page_1_limit_100_desc : JsObject :=
  [("page", JNumber 1); ("limit", JNumber 100); ("order", JString "desc")].

(** ** The shape of a client's socket state *)

(** The line a listener writes to the console for the event it hears. *)
Definition line_of (ev : SocketEvent) : string :=
  match ev with
  | connect => "Connected to Skinport WebSocket"
  | connect_error err => "Connection Error: " +:+ err
  end.

(** The socket as [initSocket] leaves it: the arguments it gave [io] and the
    two listeners, both of promise [p]. *)
Definition opened_socket (p : nat) : SocketObj :=
  {| uri := "wss://skinport.com";
     opts := {| transports := ["websocket"]; parser := "socket.io-msgpack-parser";
                secure := true; rejectUnauthorized := false;
                reconnection := true |};
     listeners := [OnConnect p; OnConnectError p] |}.

Definition is_emit (o : Op) : bool :=
  match o with
  | Emit _ _ => true
  | _ => false
  end.

(** How many times [initSocket] is called in a run. *)
Definition init_calls (ops : list Op) : nat := length (List.filter is_init ops).

(** The socket state after [n] calls of [initSocket]: before the first,
    nothing exists; after it, there is the one socket with the listeners of
    promise 0, and every promise but promise 0 is fulfilled. *)
Definition Shape (n : nat) (w : World) : Prop :=
  match n with
  | 0 => _socket (this w) = None /\ sockets w = [] /\ promises w = []
  | S k =>
      _socket (this w) = Some 0 /\ sockets w = [opened_socket 0]
      /\ exists first, promises w = first :: replicate k Fulfilled
  end.

(** The request a step hands to the gateway [a], when it hands one: only a
    marketplace call does. *)
Definition request_of (a : AxiosInstance) (o : Op) : option AxiosRequest :=
  match o with
  | Call e options =>
      Some {| method := "get";
              req_baseURL := baseURL a;
              url := path_of e;
              req_headers := headers a;
              params := match e with
                        | Items => Some (default [] options)
                        | _ => options
                        end |}
  | _ => None
  end.

(** A character of the base64 alphabet, or the padding. *)
Definition is_b64 (c : ascii) : bool :=
  existsb (Ascii.eqb c) (list_ascii_of_string Base64.alphabet)
  || Ascii.eqb c Base64.pad.

(** * Base64: what the encoding carries *)

Local Open Scope N_scope.

(** The vectors of RFC 4648, section 10. *)
Example base64_rfc4648 :
  map Base64.encode ["f"; "fo"; "foo"; "foob"; "fooba"; "foobar"]
  = ["Zg=="; "Zm8="; "Zm9v"; "Zm9vYg=="; "Zm9vYmE="; "Zm9vYmFy"].
Proof. reflexivity. Qed.

Example base64_empty : Base64.encode "" = "".
Proof. reflexivity. Qed.

Example base64_decode_foobar : Base64.decode "Zm9vYmE=" = Some "fooba".
Proof. reflexivity. Qed.

Section Base64_facts.
Import Base64.

Lemma byte_cases (P : N -> bool) :
  forallb P bytes_below_256 = true -> forall n, n < 256 -> P n = true.
Proof.
  intros Hall n Hn.
  rewrite forallb_forall in Hall. apply Hall.
  unfold bytes_below_256. apply in_map_iff.
  exists (N.to_nat n). split; [apply N2Nat.id|].
  apply in_seq. lia.
Qed.

Lemma byte_cases2 (P : N -> N -> bool) :
  forallb (fun a => forallb (P a) bytes_below_256) bytes_below_256 = true ->
  forall a b, a < 256 -> b < 256 -> P a b = true.
Proof.
  intros Hall a b Ha Hb.
  apply (byte_cases (P a)); [|exact Hb].
  apply (byte_cases (fun a => forallb (P a) bytes_below_256)); assumption.
Qed.

Lemma group_digit i : i < 64 -> group (digit i) = Some i /\ Ascii.eqb (digit i) pad = false.
Proof.
  intros Hi.
  assert (i < 256) as Hi' by lia.
  pose proof (byte_cases
    (fun i => (64 <=? i) ||
              (match group (digit i) with Some j => N.eqb j i | None => false end
               && negb (Ascii.eqb (digit i) pad)))%bool
    ltac:(vm_compute; reflexivity) i Hi') as H.
  cbv beta in H.
  apply orb_true_iff in H. destruct H as [H|H].
  - apply N.leb_le in H. lia.
  - apply andb_true_iff in H. destruct H as [H1 H2].
    destruct (group (digit i)) as [j|]; [|discriminate].
    apply N.eqb_eq in H1. subst j. split; [reflexivity|].
    now apply negb_true_iff.
Qed.

Lemma groups_small a b :
  a < 256 -> b < 256 ->
  g1_of a < 64 /\ g2_of a b < 64 /\ g3_of a b < 64 /\ g4_of a < 64.
Proof.
  intros Ha Hb.
  pose proof (byte_cases2
    (fun a b => (g1_of a <? 64) && (g2_of a b <? 64) && (g3_of a b <? 64)
                && (g4_of a <? 64))%bool ltac:(vm_compute; reflexivity) a b Ha Hb) as H.
  cbv beta in H.
  repeat (apply andb_true_iff in H; destruct H as [H ?]).
  repeat split; now apply N.ltb_lt.
Qed.

Lemma byte1_groups a b : a < 256 -> b < 256 -> byte1 (g1_of a) (g2_of a b) = a.
Proof.
  intros Ha Hb. apply N.eqb_eq.
  exact (byte_cases2 (fun a b => N.eqb (byte1 (g1_of a) (g2_of a b)) a) ltac:(vm_compute; reflexivity) a b Ha Hb).
Qed.

(** [byte2] reads the low four bits of the second group and the high four
    of the third: the first byte and the third do not matter. *)
Lemma g2_low a b : a < 256 -> b < 256 -> N.land (g2_of a b) 15 = N.shiftr b 4.
Proof.
  intros Ha Hb. apply N.eqb_eq.
  exact (byte_cases2 (fun a b => N.eqb (N.land (g2_of a b) 15) (N.shiftr b 4)) ltac:(vm_compute; reflexivity) a b Ha Hb).
Qed.

Lemma g3_high b c : b < 256 -> c < 256 -> N.shiftr (g3_of b c) 2 = N.land b 15.
Proof.
  intros Hb Hc. apply N.eqb_eq.
  exact (byte_cases2 (fun b c => N.eqb (N.shiftr (g3_of b c) 2) (N.land b 15)) ltac:(vm_compute; reflexivity) b c Hb Hc).
Qed.

Lemma nibbles b : b < 256 -> N.lor (N.shiftl (N.shiftr b 4) 4) (N.land b 15) = b.
Proof.
  intros Hb. apply N.eqb_eq.
  exact (byte_cases (fun b => N.eqb (N.lor (N.shiftl (N.shiftr b 4) 4) (N.land b 15)) b) ltac:(vm_compute; reflexivity) b Hb).
Qed.

Lemma byte2_groups a b c :
  a < 256 -> b < 256 -> c < 256 -> byte2 (g2_of a b) (g3_of b c) = b.
Proof.
  intros Ha Hb Hc. unfold byte2.
  rewrite g2_low, g3_high by assumption. now apply nibbles.
Qed.

Lemma byte3_groups b c : b < 256 -> c < 256 -> byte3 (g3_of b c) (g4_of c) = c.
Proof.
  intros Hb Hc. apply N.eqb_eq.
  exact (byte_cases2 (fun b c => N.eqb (byte3 (g3_of b c) (g4_of c)) c) ltac:(vm_compute; reflexivity) b c Hb Hc).
Qed.

(** Lists three elements at a time, as [encode_bytes] reads them. *)
Lemma list_ind3 {A} (P : list A -> Prop) :
  P [] -> (forall a, P [a]) -> (forall a b, P [a; b]) ->
  (forall a b c l, P l -> P (a :: b :: c :: l)) ->
  forall l, P l.
Proof.
  intros H0 H1 H2 H3.
  assert (forall l, P l /\ (forall a, P (a :: l)) /\ (forall a b, P (a :: b :: l))) as H.
  { induction l as [|x l (IH0 & IH1 & IH2)]; [now auto|].
    split; [apply IH1|]. split; [intros; apply IH2|].
    intros a b. now apply H3. }
  intros l. apply H.
Qed.

Lemma encode_bytes_step a b c rest :
  encode_bytes (a :: b :: c :: rest)
  = digit (g1_of a) :: digit (g2_of a b) :: digit (g3_of b c) :: digit (g4_of c)
    :: encode_bytes rest.
Proof. reflexivity. Qed.

Lemma encode_bytes_length bs :
  List.length (encode_bytes bs) = (4 * ((List.length bs + 2) / 3))%nat.
Proof.
  induction bs as [| a | a b | a b c l IH] using list_ind3; try reflexivity.
  rewrite encode_bytes_step. cbn [List.length]. rewrite IH.
  replace (S (S (S (List.length l))) + 2)%nat with (1 * 3 + (List.length l + 2))%nat by lia.
  rewrite Nat.div_add_l by lia. lia.
Qed.

End Base64_facts.

Section Base64_roundtrip.
Import Base64.

Lemma encode_bytes_one a :
  encode_bytes [a] = [digit (g1_of a); digit (g2_of a 0); pad; pad].
Proof.
  unfold g2_of. rewrite N.shiftr_0_l, N.lor_0_r. reflexivity.
Qed.

Lemma encode_bytes_two a b :
  encode_bytes [a; b] = [digit (g1_of a); digit (g2_of a b); digit (g3_of b 0); pad].
Proof.
  unfold g3_of. rewrite N.shiftr_0_l, N.lor_0_r. reflexivity.
Qed.

Ltac read_group a b :=
  let H := fresh in
  pose proof (groups_small a b) as H;
  destruct H as (? & ? & ? & ?); [assumption || lia ..|].

Ltac read_digit g :=
  let H := fresh in
  let Hg := fresh in
  let Hp := fresh in
  pose proof (group_digit g) as H;
  destruct H as [Hg Hp]; [assumption|];
  rewrite ?Hg, ?Hp; clear Hg Hp.

Lemma decode_encode_bytes bs :
  Forall (fun b => b < 256) bs ->
  forall fuel, (List.length (encode_bytes bs) <= fuel)%nat ->
  decode_digits fuel (encode_bytes bs) = Some bs.
Proof.
  induction bs as [| a | a b | a b c l IH] using list_ind3; intros Hbs fuel Hfuel.
  - destruct fuel; reflexivity.
  - apply Forall_cons_1 in Hbs as [Ha _].
    rewrite encode_bytes_one in *.
    destruct fuel as [|fuel]; [cbn in Hfuel; lia|].
    read_group a 0. cbn [decode_digits].
    read_digit (g1_of a). read_digit (g2_of a 0). cbn.
    now rewrite byte1_groups by lia.
  - apply Forall_cons_1 in Hbs as [Ha Hbs]. apply Forall_cons_1 in Hbs as [Hb _].
    rewrite encode_bytes_two in *.
    destruct fuel as [|fuel]; [cbn in Hfuel; lia|].
    read_group a b. read_group b 0. cbn [decode_digits].
    read_digit (g1_of a). read_digit (g2_of a b). cbn [mbind option_bind].
    read_digit (g3_of b 0). cbn.
    now rewrite byte1_groups, byte2_groups by lia.
  - apply Forall_cons_1 in Hbs as [Ha Hbs]. apply Forall_cons_1 in Hbs as [Hb Hbs].
    apply Forall_cons_1 in Hbs as [Hc Hbs].
    rewrite encode_bytes_step in *.
    destruct fuel as [|fuel]; [cbn in Hfuel; lia|].
    read_group a b. read_group b c. read_group c 0. cbn [decode_digits].
    read_digit (g1_of a). read_digit (g2_of a b). cbn [mbind option_bind].
    read_digit (g3_of b c). read_digit (g4_of c). cbn [mbind option_bind].
    rewrite IH by (try assumption; cbn in Hfuel; lia).
    cbn [mbind option_bind].
    now rewrite byte1_groups, byte2_groups, byte3_groups by assumption.
Qed.

Lemma bytes_of_small s : Forall (fun b => b < 256) (bytes_of s).
Proof.
  unfold bytes_of. apply Forall_forall. intros b Hb.
  apply list_elem_of_In, in_map_iff in Hb as (c & <- & _).
  apply N_ascii_bounded.
Qed.

Lemma string_of_bytes_of s :
  string_of_list_ascii (map ascii_of_N (bytes_of s)) = s.
Proof.
  unfold bytes_of. rewrite map_map.
  rewrite (map_ext _ (fun c => c)) by apply ascii_N_embedding.
  rewrite map_id. apply string_of_list_ascii_of_string.
Qed.

(** Decoding what [encode] wrote gives the text back, byte for byte. *)
Lemma decode_encode s : decode (encode s) = Some s.
Proof.
  unfold decode, encode.
  rewrite list_ascii_of_string_of_list_ascii.
  rewrite decode_encode_bytes by (apply bytes_of_small || reflexivity).
  cbn [mbind option_bind]. now rewrite string_of_bytes_of.
Qed.

Lemma encode_inj s t : encode s = encode t -> s = t.
Proof.
  intros H. apply (f_equal decode) in H.
  rewrite !decode_encode in H. now injection H.
Qed.

End Base64_roundtrip.

Local Close Scope N_scope.

(** * The client: what every step keeps *)

Section Steps.

Variable remote : list AxiosRequest -> AxiosRequest -> AxiosError + AxiosResponse.

(** Settling a promise touches the promise store and the settlement log
    only. *)
Lemma settle_frame p o w :
  this (settle p o w) = this w /\ sockets (settle p o w) = sockets w
  /\ wire (settle p o w) = wire w /\ console (settle p o w) = console w.
Proof.
  unfold settle. destruct (promises w !! p) as [[| |]|]; cbn; auto.
Qed.

Lemma fire_frame ev w l :
  this (fire ev w l) = this w /\ sockets (fire ev w l) = sockets w
  /\ wire (fire ev w l) = wire w.
Proof.
  destruct l as [p|p], ev as [|err]; cbn; auto;
    unfold resolve, reject;
    match goal with |- context [settle ?p ?o ?w] =>
      destruct (settle_frame p o w) as (-> & -> & -> & _) end; cbn; auto.
Qed.

Lemma fires_frame ev ls w :
  this (fold_left (fire ev) ls w) = this w
  /\ sockets (fold_left (fire ev) ls w) = sockets w
  /\ wire (fold_left (fire ev) ls w) = wire w.
Proof.
  revert w. induction ls as [|l ls IH]; intros w; cbn [fold_left]; [auto|].
  destruct (IH (fire ev w l)) as (-> & -> & ->). apply fire_frame.
Qed.

(** An event changes neither the client object nor the sockets opened. *)
Lemma emit_frame s ev w :
  this (emit s ev w) = this w /\ sockets (emit s ev w) = sockets w
  /\ wire (emit s ev w) = wire w.
Proof.
  unfold emit. destruct (sockets w !! s); [apply fires_frame | auto].
Qed.

(** A marketplace call adds one request to the wire and nothing else. *)
Lemma call_frame e options w :
  call remote e options w
  = (with_wire (wire w ++ [{| method := "get";
                             req_baseURL := baseURL (api (this w));
                             url := path_of e;
                             req_headers := headers (api (this w));
                             params := match e with
                                       | Items => Some (default [] options)
                                       | _ => options
                                       end |}]) w,
     body (remote (wire w)
             {| method := "get";
                req_baseURL := baseURL (api (this w));
                url := path_of e;
                req_headers := headers (api (this w));
                params := match e with
                          | Items => Some (default [] options)
                          | _ => options
                          end |})).
Proof. destruct e; reflexivity. Qed.

(** [initSocket] on a client whose [_socket] is set: the debounce. *)
Lemma initSocket_assigned w s :
  _socket (this w) = Some s ->
  initSocket w
  = (resolve (length (promises w)) (with_promises (promises w ++ [Pending]) w),
     length (promises w)).
Proof.
  intros H. unfold initSocket, new_promise. cbn. now rewrite H.
Qed.

(** [initSocket] on a client whose [_socket] is not set. *)
Lemma initSocket_fresh w :
  _socket (this w) = None ->
  initSocket w
  = ({| this := {| api := api (this w); _socket := Some (length (sockets w)) |};
        sockets :=
          alter (fun so => {| uri := uri so; opts := opts so;
                              listeners := listeners so ++ [OnConnectError (length (promises w))] |})
            (length (sockets w))
            (alter (fun so => {| uri := uri so; opts := opts so;
                                 listeners := listeners so ++ [OnConnect (length (promises w))] |})
               (length (sockets w))
               (sockets w ++ [{| uri := "wss://skinport.com";
                                 opts := {| transports := ["websocket"];
                                            parser := "socket.io-msgpack-parser";
                                            secure := true; rejectUnauthorized := false;
                                            reconnection := true |};
                                 listeners := [] |}]));
        promises := promises w ++ [Pending];
        settled := settled w; console := console w; wire := wire w |},
     length (promises w)).
Proof.
  intros H. unfold initSocket, new_promise. cbn. now rewrite H.
Qed.

Lemma initSocket_this w :
  api (this (fst (initSocket w))) = api (this w)
  /\ wire (fst (initSocket w)) = wire w.
Proof.
  destruct (_socket (this w)) as [s|] eqn:H.
  - rewrite (initSocket_assigned _ _ H). cbn [fst]. unfold resolve.
    destruct (settle_frame (length (promises w)) Fulfilled
                (with_promises (promises w ++ [Pending]) w)) as (-> & _ & -> & _).
    auto.
  - rewrite (initSocket_fresh _ H). auto.
Qed.

(** The gateway is set by the constructor and by nothing else. *)
Lemma step_api w o : api (this (step remote w o)) = api (this w).
Proof.
  destruct o as [| |e options|s ev]; cbn [step].
  - apply initSocket_this.
  - reflexivity.
  - now rewrite call_frame.
  - now destruct (emit_frame s ev w) as (-> & _).
Qed.

Lemma run_api ops : forall w, api (this (run remote w ops)) = api (this w).
Proof.
  induction ops as [|o ops IH]; intros w; [reflexivity|].
  cbn. unfold run in IH. rewrite IH. apply step_api.
Qed.

(** Once set, [_socket] keeps its value: no step assigns it again. *)
Lemma step_socket w o s :
  _socket (this w) = Some s -> _socket (this (step remote w o)) = Some s.
Proof.
  intros H. destruct o as [| |e options|s' ev]; cbn [step].
  - rewrite (initSocket_assigned _ _ H). cbn [fst]. unfold resolve.
    now destruct (settle_frame (length (promises w)) Fulfilled
                    (with_promises (promises w ++ [Pending]) w)) as (-> & _).
  - exact H.
  - now rewrite call_frame.
  - now destruct (emit_frame s' ev w) as (-> & _).
Qed.

Lemma run_socket ops : forall w s,
  _socket (this w) = Some s -> _socket (this (run remote w ops)) = Some s.
Proof.
  induction ops as [|o ops IH]; intros w s H; [exact H|].
  cbn. apply IH. now apply step_socket.
Qed.

(** Without a call of [initSocket], [_socket] stays unset. *)
Lemma step_no_init w o :
  is_init o = false -> _socket (this w) = None ->
  _socket (this (step remote w o)) = None.
Proof.
  intros Ho H. destruct o as [| |e options|s' ev]; cbn [step]; try discriminate.
  - exact H.
  - now rewrite call_frame.
  - now destruct (emit_frame s' ev w) as (-> & _).
Qed.

Lemma run_no_init ops : forall w,
  invoked ops = false -> _socket (this w) = None ->
  _socket (this (run remote w ops)) = None.
Proof.
  induction ops as [|o ops IH]; intros w Hops H; [exact H|].
  cbn in Hops. apply orb_false_iff in Hops as [Ho Hops].
  cbn. apply IH; [exact Hops|]. now apply step_no_init.
Qed.

End Steps.

(** * The client: the invariant of its worlds *)

Section Invariant.

Variable remote : list AxiosRequest -> AxiosRequest -> AxiosError + AxiosResponse.

Lemma weight_new (ps : list Promise) p :
  weight ((ps ++ [Pending]) !! p) = weight (ps !! p).
Proof.
  destruct (decide (p < length ps)) as [Hlt|Hge].
  - now rewrite lookup_app_l.
  - rewrite lookup_app_r by lia.
    rewrite (lookup_ge_None_2 ps p) by lia.
    now destruct (p - length ps) as [|[|n]].
Qed.

Lemma settlements_log p q o w :
  settlements p (with_settled (settled w ++ [(q, o)]) w)
  = settlements p w + (if decide (q = p) then 1 else 0).
Proof.
  unfold settlements. cbn [settled with_settled].
  rewrite map_app, count_occ_app. cbn [map fst count_occ].
  destruct (Nat.eq_dec q p), (decide (q = p)); try contradiction; lia.
Qed.

Lemma Inv_boot clientId clientSecret : Inv (boot clientId clientSecret).
Proof. split; [reflexivity | intros p; reflexivity]. Qed.

Lemma Inv_new_promise w : Inv w -> Inv (fst (new_promise w)).
Proof.
  intros [Hs Hp]. split; [exact Hs|].
  intros p. cbn. rewrite weight_new. apply Hp.
Qed.

Lemma Inv_settle p o w : o <> Pending -> Inv w -> Inv (settle p o w).
Proof.
  intros Ho [Hs Hp]. unfold settle.
  destruct (promises w !! p) as [[| |]|] eqn:Hlk; try (split; assumption).
  split; [exact Hs|].
  intros q.
  change (settlements q (with_settled (settled w ++ [(p, o)])
                           (with_promises (<[p:=o]> (promises w)) w))
          = weight (<[p:=o]> (promises w) !! q)).
  pose proof (settlements_log q p o (with_promises (<[p:=o]> (promises w)) w)) as Hlog.
  cbn in Hlog. unfold settlements in *. cbn in *. rewrite Hlog, Hp.
  destruct (decide (p = q)) as [<-|Hne].
  - rewrite list_lookup_insert_eq by (now apply lookup_lt_Some in Hlk).
    rewrite Hlk. destruct o; cbn; congruence.
  - rewrite list_lookup_insert_ne by assumption. lia.
Qed.

Lemma Inv_console_log line w : Inv w -> Inv (console_log line w).
Proof. intros [Hs Hp]. split; assumption. Qed.

Lemma Inv_fire ev w l : Inv w -> Inv (fire ev w l).
Proof.
  intros H. destruct l as [p|p], ev as [|err]; cbn; try assumption;
    apply Inv_settle; try discriminate; now apply Inv_console_log.
Qed.

Lemma Inv_emit s ev w : Inv w -> Inv (emit s ev w).
Proof.
  intros H. unfold emit. destruct (sockets w !! s) as [so|]; [|exact H].
  revert w H. induction (listeners so) as [|l ls IH]; intros w H; [exact H|].
  cbn. apply IH. now apply Inv_fire.
Qed.

Lemma Inv_initSocket w : Inv w -> Inv (fst (initSocket w)).
Proof.
  intros H. destruct (_socket (this w)) as [s|] eqn:Hs.
  - rewrite (initSocket_assigned _ _ Hs). cbn [fst].
    apply Inv_settle; [discriminate|]. exact (Inv_new_promise w H).
  - rewrite (initSocket_fresh _ Hs). cbn [fst].
    destruct H as [Hsock Hp]. rewrite Hs in Hsock. rewrite Hsock.
    split; [cbn; auto|].
    intros p. change (settlements p w = weight ((promises w ++ [Pending]) !! p)).
    rewrite weight_new. apply Hp.
Qed.

Lemma Inv_step w o : Inv w -> Inv (step remote w o).
Proof.
  intros H. destruct o as [| |e options|s ev]; cbn [step].
  - now apply Inv_initSocket.
  - exact H.
  - rewrite call_frame. exact H.
  - now apply Inv_emit.
Qed.

Lemma Inv_run ops : forall w, Inv w -> Inv (run remote w ops).
Proof.
  induction ops as [|o ops IH]; intros w H; [exact H|].
  cbn. apply IH. now apply Inv_step.
Qed.

Lemma Inv_reachable clientId clientSecret ops :
  Inv (run remote (boot clientId clientSecret) ops).
Proof. apply Inv_run, Inv_boot. Qed.

End Invariant.

(** * The client: a settled promise stays as it is *)

Section Settled.

Variable remote : list AxiosRequest -> AxiosRequest -> AxiosError + AxiosResponse.

Lemma settle_keep p o q o' w :
  promises w !! p = Some o -> o <> Pending ->
  promises (settle q o' w) !! p = Some o.
Proof.
  intros Hp Ho. unfold settle.
  destruct (promises w !! q) as [[| |]|] eqn:Hq; try exact Hp.
  cbn. rewrite list_lookup_insert_ne; [exact Hp|].
  intros ->. rewrite Hp in Hq. congruence.
Qed.

Lemma fire_keep p o ev w l :
  promises w !! p = Some o -> o <> Pending ->
  promises (fire ev w l) !! p = Some o.
Proof.
  intros Hp Ho. destruct l as [q|q], ev as [|err]; cbn; try exact Hp;
    now apply settle_keep.
Qed.

Lemma emit_keep p o s ev w :
  promises w !! p = Some o -> o <> Pending ->
  promises (emit s ev w) !! p = Some o.
Proof.
  intros Hp Ho. unfold emit. destruct (sockets w !! s) as [so|]; [|exact Hp].
  revert w Hp. induction (listeners so) as [|l ls IH]; intros w Hp; [exact Hp|].
  cbn. apply IH. now apply fire_keep.
Qed.

Lemma initSocket_keep p o w :
  promises w !! p = Some o -> o <> Pending ->
  promises (fst (initSocket w)) !! p = Some o.
Proof.
  intros Hp Ho.
  assert ((promises w ++ [Pending]) !! p = Some o) as Hp'
    by (rewrite lookup_app_l; [exact Hp | now apply lookup_lt_Some in Hp]).
  destruct (_socket (this w)) as [s|] eqn:Hs.
  - rewrite (initSocket_assigned _ _ Hs). cbn [fst].
    now apply settle_keep.
  - rewrite (initSocket_fresh _ Hs). exact Hp'.
Qed.

Lemma step_keep p o w op :
  promises w !! p = Some o -> o <> Pending ->
  promises (step remote w op) !! p = Some o.
Proof.
  intros Hp Ho. destruct op as [| |e options|s ev]; cbn [step].
  - now apply initSocket_keep.
  - exact Hp.
  - now rewrite call_frame.
  - now apply emit_keep.
Qed.

Lemma run_keep p o ops : forall w,
  promises w !! p = Some o -> o <> Pending ->
  promises (run remote w ops) !! p = Some o.
Proof.
  induction ops as [|op ops IH]; intros w Hp Ho; [exact Hp|].
  cbn. apply IH; [|exact Ho]. now apply step_keep.
Qed.

(** In a world that satisfies the invariant, a settled promise has been
    settled once, and that stays so whatever happens next. *)
Lemma settled_once p o ops w :
  Inv w -> promises w !! p = Some o -> o <> Pending ->
  promises (run remote w ops) !! p = Some o
  /\ settlements p (run remote w ops) = 1.
Proof.
  intros HI Hp Ho.
  pose proof (run_keep p o ops w Hp Ho) as Hk.
  split; [exact Hk|].
  destruct (Inv_run remote ops w HI) as [_ Hcount].
  rewrite Hcount, Hk. destruct o; [congruence | reflexivity | reflexivity].
Qed.

(** The sockets a run has opened: none before [_socket] is set, one after. *)
Lemma sockets_of_run clientId clientSecret ops :
  let w := run remote (boot clientId clientSecret) ops in
  match _socket (this w) with
  | None => sockets w = []
  | Some s => s = 0 /\ length (sockets w) = 1
  end.
Proof. exact (proj1 (Inv_reachable remote clientId clientSecret ops)). Qed.

(** A call of a marketplace method or an event opens no socket. *)
Lemma step_sockets w o :
  is_init o = false -> sockets (step remote w o) = sockets w.
Proof.
  intros Ho. destruct o as [| |e options|s ev]; cbn [step]; try discriminate.
  - reflexivity.
  - now rewrite call_frame.
  - now destruct (emit_frame s ev w) as (_ & -> & _).
Qed.

(** The debounce in full: the world after [initSocket] on a client whose
    [_socket] is set differs by one promise, born fulfilled. *)
Lemma initSocket_debounce w s :
  _socket (this w) = Some s ->
  let (w', q) := initSocket w in
  this w' = this w /\ sockets w' = sockets w /\ wire w' = wire w
  /\ console w' = console w
  /\ q = length (promises w)
  /\ promises w' = promises w ++ [Fulfilled].
Proof.
  intros Hs. rewrite (initSocket_assigned _ _ Hs).
  unfold resolve, settle. cbn [promises with_promises].
  rewrite lookup_app_r by lia. rewrite Nat.sub_diag. cbn.
  repeat split; try reflexivity.
  rewrite insert_app_r_alt by lia. now rewrite Nat.sub_diag.
Qed.

End Settled.

(** * The client: the first handshake *)

Section Handshake.

Variable remote : list AxiosRequest -> AxiosRequest -> AxiosError + AxiosResponse.

Lemma outcome_settled ev : outcome ev <> Pending.
Proof. destruct ev; discriminate. Qed.

Lemma settle_pending p o w :
  promises w !! p = Some Pending ->
  settle p o w
  = with_settled (settled w ++ [(p, o)]) (with_promises (<[p:=o]> (promises w)) w).
Proof. intros H. unfold settle. now rewrite H. Qed.

Lemma initSocket_sets w : is_Some (_socket (this (fst (initSocket w)))).
Proof.
  destruct (_socket (this w)) as [s|] eqn:Hs.
  - exists s. exact (step_socket remote w CallInitSocket s Hs).
  - rewrite (initSocket_fresh _ Hs). cbn. eauto.
Qed.

(** The first call on a client with no socket, followed by the first event
    on the socket it opened. *)
Lemma first_handshake w ev later :
  Inv w -> _socket (this w) = None ->
  let (w1, p) := initSocket w in
  let w2 := emit 0 ev w1 in
  let w3 := run remote w2 later in
  (this w1 = {| api := api (this w); _socket := Some 0 |}
   /\ sockets w1 = [{| uri := "wss://skinport.com";
                       opts := {| transports := ["websocket"];
                                  parser := "socket.io-msgpack-parser";
                                  secure := true; rejectUnauthorized := false;
                                  reconnection := true |};
                       listeners := [OnConnect p; OnConnectError p] |}]
   /\ promises w1 !! p = Some Pending
   /\ settlements p w1 = 0)
  /\ (promises w2 !! p = Some (outcome ev) /\ settlements p w2 = 1
      /\ this w2 = this w1 /\ sockets w2 = sockets w1)
  /\ (promises w3 !! p = Some (outcome ev) /\ settlements p w3 = 1
      /\ _socket (this w3) = Some 0)
  /\ Inv w3.
Proof.
  intros HI Hs.
  pose proof (Inv_initSocket w HI) as HI1.
  destruct HI as [Hsock Hcount]. rewrite Hs in Hsock.
  rewrite (initSocket_fresh _ Hs) in *. rewrite Hsock in *. cbn [fst] in HI1.
  cbn [length app alter list_alter] in *.
  set (p := length (promises w)) in *.
  match type of HI1 with Inv ?x => set (w1 := x) in * end.
  assert (promises w1 !! p = Some Pending) as Hp
    by (subst w1 p; cbn; now rewrite list_lookup_middle).
  assert (emit 0 ev w1
          = settle p (outcome ev)
              (console_log match ev with
                           | connect => "Connected to Skinport WebSocket"
                           | connect_error err => "Connection Error: " +:+ err
                           end w1)) as Hemit
    by (destruct ev; reflexivity).
  pose proof (Inv_emit 0 ev w1 HI1) as HI2.
  assert (promises (emit 0 ev w1) !! p = Some (outcome ev)) as Hp2.
  { rewrite Hemit, settle_pending by exact Hp. cbn.
    apply list_lookup_insert_eq. now apply lookup_lt_Some in Hp. }
  destruct (emit_frame 0 ev w1) as (Hthis & Hsocks & _).
  pose proof (settled_once remote p (outcome ev) later _ HI2 Hp2 (outcome_settled ev))
    as [Hp3 Hc3].
  pose proof (settled_once remote p (outcome ev) [] _ HI2 Hp2 (outcome_settled ev))
    as [_ Hc2].
  assert (Inv (run remote (emit 0 ev w1) later)) as HI3 by now apply Inv_run.
  split; [|split; [|split; [|exact HI3]]].
  - repeat split; try assumption; try reflexivity.
    destruct HI1 as [_ Hc1]. now rewrite Hc1, Hp.
  - repeat split; assumption.
  - repeat split; try assumption.
    apply run_socket. now rewrite Hthis.
Qed.

(** [_socket] is set exactly in the runs that called [initSocket]. *)
Lemma run_invoked ops : forall w,
  invoked ops = true -> is_Some (_socket (this (run remote w ops))).
Proof.
  induction ops as [|o ops IH]; intros w H; [discriminate|].
  cbn in H. apply orb_true_iff in H as [Ho|Hops].
  - destruct o; try discriminate. cbn.
    destruct (initSocket_sets w) as [s Hs].
    exists s. now apply run_socket.
  - cbn. now apply IH.
Qed.

Lemma socket_iff_invoked clientId clientSecret ops :
  is_Some (_socket (this (run remote (boot clientId clientSecret) ops)))
  <-> invoked ops = true.
Proof.
  split.
  - intros [s Hs]. destruct (invoked ops) eqn:Hi; [reflexivity|].
    rewrite (run_no_init remote ops (boot clientId clientSecret) Hi eq_refl) in Hs.
    discriminate.
  - apply run_invoked.
Qed.

End Handshake.

(** * The socket: the claims *)

(** C1: at most one connection. In every run of a client, whatever the
    order of [initSocket] calls, marketplace calls and transport events, the
    number of sockets opened by [io] is at most one: it is one when
    [initSocket] has been called and zero otherwise. A call of [initSocket]
    that finds [_socket] set opens nothing, leaves the client object as it
    is, and returns a promise that is already fulfilled. *)
Theorem C1_at_most_one_connection
    (remote : list AxiosRequest -> AxiosRequest -> AxiosError + AxiosResponse)
    (clientId clientSecret : option string) (ops : list Op) :
  let w := run remote (boot clientId clientSecret) ops in
  length (sockets w) <= 1
  /\ length (sockets w) = (if invoked ops then 1 else 0)
  /\ forall s, _socket (this w) = Some s ->
       let (w', q) := initSocket w in
       sockets w' = sockets w /\ this w' = this w
       /\ promises w' !! q = Some Fulfilled.
Proof.
  intros w. subst w.
  pose proof (sockets_of_run remote clientId clientSecret ops) as Hs.
  pose proof (socket_iff_invoked remote clientId clientSecret ops) as Hiff.
  cbv zeta in Hs.
  set (w := run remote (boot clientId clientSecret) ops) in *.
  assert (length (sockets w) = (if invoked ops then 1 else 0)) as Hlen.
  { destruct (_socket (this w)) as [s|] eqn:E.
    - destruct Hs as [_ Hs]. rewrite (proj1 Hiff) by eauto. exact Hs.
    - rewrite Hs. destruct (invoked ops); [|reflexivity].
      destruct (proj2 Hiff eq_refl) as [s Hs']. discriminate. }
  split; [rewrite Hlen; destruct (invoked ops); lia|].
  split; [exact Hlen|].
  intros s E. pose proof (initSocket_debounce w s E) as Hd.
  destruct (initSocket w) as [w' q].
  destruct Hd as (Ht & Hso & _ & _ & -> & Hp).
  repeat split; try assumption.
  rewrite Hp. apply list_lookup_middle. reflexivity.
Qed.

(** C1 on a run with three calls of [initSocket], two of them before the
    handshake. *)
Lemma C1_witness :
  let w := run offline (boot None None)
             [CallInitSocket; CallInitSocket; Emit 0 connect; CallInitSocket] in
  length (sockets w) <= 1
  /\ length (sockets w) = 1
  /\ let (w', q) := initSocket w in
     sockets w' = sockets w /\ this w' = this w
     /\ promises w' !! q = Some Fulfilled.
Proof.
  pose proof (C1_at_most_one_connection offline None None
                [CallInitSocket; CallInitSocket; Emit 0 connect; CallInitSocket])
    as (H1 & H2 & H3).
  split; [exact H1|]. split; [exact H2|].
  apply (H3 0). reflexivity.
Defined.

(** C2: a first call that succeeds. On a client whose [_socket] is not
    set, one call of [initSocket] creates the socket with its two listeners
    and returns a pending promise; when the transport then emits [connect],
    the promise is fulfilled and has been settled once, and it stays so in
    every later world; from then on the getter returns the socket. *)
Theorem C2_connect_fulfils_once
    (remote : list AxiosRequest -> AxiosRequest -> AxiosError + AxiosResponse)
    (clientId clientSecret : option string) (ops later : list Op) :
  let w := run remote (boot clientId clientSecret) ops in
  _socket (this w) = None ->
  let (w1, p) := initSocket w in
  let w2 := emit 0 connect w1 in
  let w3 := run remote w2 later in
  (_socket (this w1) = Some 0 /\ length (sockets w1) = 1
   /\ (listeners <$> sockets w1 !! 0) = Some [OnConnect p; OnConnectError p]
   /\ promises w1 !! p = Some Pending /\ settlements p w1 = 0)
  /\ (promises w2 !! p = Some Fulfilled /\ settlements p w2 = 1
      /\ socket w2 = inr 0)
  /\ (promises w3 !! p = Some Fulfilled /\ settlements p w3 = 1
      /\ socket w3 = inr 0).
Proof.
  intros w Hs.
  pose proof (first_handshake remote w connect later
                (Inv_reachable remote clientId clientSecret ops) Hs) as H.
  destruct (initSocket w) as [w1 p]. cbv zeta in *.
  destruct H as ((Ht1 & Hso1 & Hp1 & Hc1) & (Hp2 & Hc2 & Ht2 & Hso2)
                 & (Hp3 & Hc3 & Hs3) & _).
  repeat split; try assumption.
  - now rewrite Ht1.
  - now rewrite Hso1.
  - now rewrite Hso1.
  - unfold socket. now rewrite Ht2, Ht1.
  - unfold socket. now rewrite Hs3.
Qed.

(** C2 on a client that has made one marketplace call; the later steps
    repeat [connect], deliver a late [connect_error] and call [initSocket]
    again. *)
Lemma C2_witness :
  let w := run canned (boot (Some "id") (Some "secret")) [ReadSocket; Call Items None] in
  _socket (this w) = None
  /\ let (w1, p) := initSocket w in
     let w2 := emit 0 connect w1 in
     let w3 := run canned w2 [Emit 0 connect; Emit 0 (connect_error "late"); CallInitSocket] in
     (_socket (this w1) = Some 0 /\ length (sockets w1) = 1
      /\ (listeners <$> sockets w1 !! 0) = Some [OnConnect p; OnConnectError p]
      /\ promises w1 !! p = Some Pending /\ settlements p w1 = 0)
     /\ (promises w2 !! p = Some Fulfilled /\ settlements p w2 = 1
         /\ socket w2 = inr 0)
     /\ (promises w3 !! p = Some Fulfilled /\ settlements p w3 = 1
         /\ socket w3 = inr 0).
Proof.
  split; [reflexivity|].
  apply (C2_connect_fulfils_once canned (Some "id") (Some "secret")
           [ReadSocket; Call Items None]
           [Emit 0 connect; Emit 0 (connect_error "late"); CallInitSocket]).
  reflexivity.
Defined.

(** C3: a first call that fails. On a client whose [_socket] is not set,
    one call of [initSocket] followed by [connect_error err] from the
    transport rejects the promise with [err]; it has been settled once and
    stays rejected in every later world. [_socket] keeps the socket. A later
    call of [initSocket] opens no socket and registers no listener, leaves
    the client object as it is, and returns a promise that is already
    fulfilled. *)
Theorem C3_connect_error_rejects_once
    (remote : list AxiosRequest -> AxiosRequest -> AxiosError + AxiosResponse)
    (clientId clientSecret : option string) (ops later : list Op) (err : string) :
  let w := run remote (boot clientId clientSecret) ops in
  _socket (this w) = None ->
  let (w1, p) := initSocket w in
  let w2 := emit 0 (connect_error err) w1 in
  let w3 := run remote w2 later in
  let (w4, q) := initSocket w3 in
  (promises w1 !! p = Some Pending /\ settlements p w1 = 0)
  /\ (promises w2 !! p = Some (Rejected err) /\ settlements p w2 = 1
      /\ _socket (this w2) = _socket (this w1) /\ _socket (this w2) = Some 0
      /\ sockets w2 = sockets w1)
  /\ (promises w3 !! p = Some (Rejected err) /\ settlements p w3 = 1
      /\ _socket (this w3) = Some 0)
  /\ (sockets w4 = sockets w3 /\ this w4 = this w3
      /\ promises w4 !! q = Some Fulfilled
      /\ promises w4 !! p = Some (Rejected err) /\ settlements p w4 = 1).
Proof.
  intros w Hs.
  pose proof (first_handshake remote w (connect_error err) (later ++ [CallInitSocket])
                (Inv_reachable remote clientId clientSecret ops) Hs) as H'.
  pose proof (first_handshake remote w (connect_error err) later
                (Inv_reachable remote clientId clientSecret ops) Hs) as H.
  destruct (initSocket w) as [w1 p]. cbv zeta in *.
  destruct H as ((Ht1 & Hso1 & Hp1 & Hc1) & (Hp2 & Hc2 & Ht2 & Hso2)
                 & (Hp3 & Hc3 & Hs3) & HI3).
  destruct H' as (_ & _ & (Hp4 & Hc4 & _) & _).
  unfold run in Hp4, Hc4. rewrite fold_left_app in Hp4, Hc4.
  cbn [fold_left step] in Hp4, Hc4.
  fold (run remote (emit 0 (connect_error err) w1) later) in *.
  set (w3 := run remote (emit 0 (connect_error err) w1) later) in *.
  pose proof (initSocket_debounce w3 0 Hs3) as Hd.
  destruct (initSocket w3) as [w4 q]. cbn [fst] in *.
  destruct Hd as (Ht4 & Hso4 & _ & _ & -> & Hps4).
  repeat split; try assumption.
  - now rewrite Ht2.
  - now rewrite Ht2, Ht1.
  - rewrite Hps4. now apply list_lookup_middle.
Qed.

(** C3 on a client without credentials. *)
Lemma C3_witness :
  let w := run offline (boot None None) [Call Transactions None] in
  _socket (this w) = None
  /\ let (w1, p) := initSocket w in
     let w2 := emit 0 (connect_error "xhr poll error") w1 in
     let w3 := run offline w2 [Emit 0 connect; ReadSocket] in
     let (w4, q) := initSocket w3 in
     (promises w1 !! p = Some Pending /\ settlements p w1 = 0)
     /\ (promises w2 !! p = Some (Rejected "xhr poll error") /\ settlements p w2 = 1
         /\ _socket (this w2) = _socket (this w1) /\ _socket (this w2) = Some 0
         /\ sockets w2 = sockets w1)
     /\ (promises w3 !! p = Some (Rejected "xhr poll error") /\ settlements p w3 = 1
         /\ _socket (this w3) = Some 0)
     /\ (sockets w4 = sockets w3 /\ this w4 = this w3
         /\ promises w4 !! q = Some Fulfilled
         /\ promises w4 !! p = Some (Rejected "xhr poll error") /\ settlements p w4 = 1).
Proof.
  split; [reflexivity|].
  apply (C3_connect_error_rejects_once offline None None
           [Call Transactions None] [Emit 0 connect; ReadSocket] "xhr poll error").
  reflexivity.
Defined.

(** C4: the getter. In a run with no call of [initSocket] the getter
    throws [Error("Socket not initialized. Call `initSocket()` first.")],
    every time. On a client whose [_socket] is set the getter returns that
    socket, whatever the state of the handshake: right after the first
    [initSocket], with the promise still pending, it returns the socket. *)
Theorem C4_socket_getter
    (remote : list AxiosRequest -> AxiosRequest -> AxiosError + AxiosResponse)
    (clientId clientSecret : option string) (ops : list Op) :
  (invoked ops = false ->
   socket (run remote (boot clientId clientSecret) ops)
   = inl {| message := "Socket not initialized. Call `initSocket()` first." |})
  /\ (forall w s, _socket (this w) = Some s -> socket w = inr s)
  /\ (forall w, _socket (this w) = None ->
        let (w1, p) := initSocket w in
        promises w1 !! p = Some Pending /\ socket w1 = inr (length (sockets w))).
Proof.
  split; [|split].
  - intros Hi. unfold socket.
    now rewrite (run_no_init remote ops (boot clientId clientSecret) Hi eq_refl).
  - intros w s Hs. unfold socket. now rewrite Hs.
  - intros w Hs. rewrite (initSocket_fresh _ Hs). split.
    + cbn. now apply list_lookup_middle.
    + reflexivity.
Qed.

(** C4 on a run of reads, a marketplace call and a stray event, and on a
    client right after its first [initSocket]. *)
Lemma C4_witness :
  socket (run offline (boot (Some "id") (Some "secret"))
            [ReadSocket; Call Items (Some []); Emit 0 connect; ReadSocket])
  = inl {| message := "Socket not initialized. Call `initSocket()` first." |}
  /\ socket (fst (initSocket (boot None None))) = inr 0
  /\ let (w1, p) := initSocket (boot None None) in
     promises w1 !! p = Some Pending /\ socket w1 = inr 0.
Proof.
  pose proof (C4_socket_getter offline (Some "id") (Some "secret")
                [ReadSocket; Call Items (Some []); Emit 0 connect; ReadSocket])
    as (H1 & H2 & H3).
  split; [apply H1; reflexivity|].
  split; [apply H2; reflexivity|].
  apply (H3 (boot None None)). reflexivity.
Defined.

(** C10: [_socket] is assigned once. After any call of [initSocket] the
    field holds a socket, and in every world reached from there, by any
    calls and any events, it holds the same socket and the getter returns
    it. More generally no run changes a [_socket] that is set. *)
Theorem C10_socket_assigned_for_good
    (remote : list AxiosRequest -> AxiosRequest -> AxiosError + AxiosResponse)
    (w : World) (ops : list Op) :
  (exists s, _socket (this (fst (initSocket w))) = Some s
             /\ _socket (this (run remote (fst (initSocket w)) ops)) = Some s
             /\ socket (run remote (fst (initSocket w)) ops) = inr s)
  /\ (forall s, _socket (this w) = Some s ->
        _socket (this (run remote w ops)) = Some s
        /\ socket (run remote w ops) = inr s).
Proof.
  assert (forall w' s, _socket (this w') = Some s ->
            _socket (this (run remote w' ops)) = Some s
            /\ socket (run remote w' ops) = inr s) as Hkeep.
  { intros w' s Hs. pose proof (run_socket remote ops w' s Hs) as Hr.
    split; [exact Hr|]. unfold socket. now rewrite Hr. }
  split; [|apply Hkeep].
  destruct (initSocket_sets remote w) as [s Hs].
  exists s. split; [exact Hs|]. now apply Hkeep.
Qed.

(** C10 on a handshake that fails, then succeeds, with two more calls of
    [initSocket]. *)
Lemma C10_witness :
  let w := fst (initSocket (boot None None)) in
  let ops := [Emit 0 (connect_error "refused"); CallInitSocket; Emit 0 connect;
              Call OutOfStock None; CallInitSocket] in
  _socket (this w) = Some 0
  /\ _socket (this (run offline w ops)) = Some 0
  /\ socket (run offline w ops) = inr 0.
Proof.
  split; [reflexivity|].
  apply (proj2 (C10_socket_assigned_for_good offline
                  (fst (initSocket (boot None None)))
                  [Emit 0 (connect_error "refused"); CallInitSocket; Emit 0 connect;
                   Call OutOfStock None; CallInitSocket]) 0).
  reflexivity.
Defined.

(** C9, as stated, fails: after [initSocket] and a [connect_error] the
    handshake has failed and the client retries nothing, yet [_socket] is
    still set. *)
Lemma C9_counterexample :
  ~ (forall (remote : list AxiosRequest -> AxiosRequest -> AxiosError + AxiosResponse)
            (clientId clientSecret : option string) (ops : list Op),
       let w := run remote (boot clientId clientSecret) ops in
       is_Some (_socket (this w)) <-> (invoked ops = true /\ failed w = false)).
Proof.
  intros H.
  destruct (H offline None None [CallInitSocket; Emit 0 (connect_error "timeout")])
    as [H1 _].
  destruct H1 as [_ Hf]; [exists 0; reflexivity|].
  vm_compute in Hf. discriminate Hf.
Qed.

(** C9, amended: in every world of a run the gateway is the one the
    constructor made, and [_socket] is set if and only if [initSocket] has
    been called in the run, whatever became of the handshake. *)
Theorem C9_gateway_kept_socket_iff_invoked
    (remote : list AxiosRequest -> AxiosRequest -> AxiosError + AxiosResponse)
    (clientId clientSecret : option string) (ops : list Op) :
  let w := run remote (boot clientId clientSecret) ops in
  api (this w) = api (constructor clientId clientSecret)
  /\ (is_Some (_socket (this w)) <-> invoked ops = true).
Proof.
  split.
  - apply run_api.
  - apply socket_iff_invoked.
Qed.

(** * The gateway: the claims *)

Section Gateway.

Variable remote : list AxiosRequest -> AxiosRequest -> AxiosError + AxiosResponse.

(** Every request of a run carries the base URL and the headers the
    constructor gave the instance. *)
Lemma wire_of_run (a : AxiosInstance) ops : forall w,
  api (this w) = a ->
  (forall r, In r (wire w) -> req_baseURL r = baseURL a /\ req_headers r = headers a) ->
  forall r, In r (wire (run remote w ops)) ->
            req_baseURL r = baseURL a /\ req_headers r = headers a.
Proof.
  induction ops as [|o ops IH]; intros w Ha Hw; [exact Hw|].
  cbn. apply IH; [now rewrite step_api|].
  destruct o as [| |e options|s ev]; cbn [step].
  - rewrite (proj2 (initSocket_this w)). exact Hw.
  - exact Hw.
  - rewrite call_frame. cbn. intros r Hr.
    apply in_app_or in Hr as [Hr|[<-|[]]]; [now apply Hw|].
    cbn. now rewrite Ha.
  - destruct (emit_frame s ev w) as (_ & _ & ->). exact Hw.
Qed.

Lemma wire_of_client clientId clientSecret ops r :
  In r (wire (run remote (boot clientId clientSecret) ops)) ->
  req_baseURL r = "https://api.skinport.com/v1"
  /\ req_headers r = headers (api (constructor clientId clientSecret)).
Proof.
  apply (wire_of_run (api (constructor clientId clientSecret)) ops
           (boot clientId clientSecret) eq_refl).
  intros r' [].
Qed.

Lemma constructor_authorization clientId clientSecret :
  headers (api (constructor clientId clientSecret)) !! "Authorization"
  = Some (authorization clientId clientSecret).
Proof. apply lookup_insert_eq. Qed.

Lemma authorization_truthy id secret :
  id <> "" -> secret <> "" ->
  authorization (Some id) (Some secret)
  = "Basic " +:+ Base64.encode (id +:+ ":" +:+ secret).
Proof.
  intros Hid Hsecret. unfold authorization, truthy.
  apply String.eqb_neq in Hid, Hsecret. now rewrite Hid, Hsecret.
Qed.

Lemma authorization_falsy clientId clientSecret :
  truthy clientId && truthy clientSecret = false ->
  authorization clientId clientSecret = "".
Proof.
  intros H. unfold authorization.
  destruct clientId as [id|], clientSecret as [secret|]; try reflexivity.
  now rewrite H.
Qed.

Lemma authorization_nonempty clientId clientSecret :
  authorization clientId clientSecret <> ""
  <-> truthy clientId && truthy clientSecret = true.
Proof.
  destruct (truthy clientId && truthy clientSecret) eqn:H.
  - split; [reflexivity|]. intros _.
    apply andb_true_iff in H as [Hid Hsecret].
    destruct clientId as [id|]; [|discriminate Hid].
    destruct clientSecret as [secret|]; [|discriminate Hsecret].
    unfold authorization. rewrite Hid, Hsecret. cbn. discriminate.
  - rewrite (authorization_falsy _ _ H). split; [congruence | discriminate].
Qed.

End Gateway.

(** C5, as stated, fails when a credential is the empty string: it is
    present, [clientId && clientSecret] is falsy, and the header is [""]. *)
Lemma C5_counterexample :
  ~ (forall id secret : string,
       headers (api (constructor (Some id) (Some secret))) !! "Authorization"
       = Some ("Basic " +:+ Base64.encode (id +:+ ":" +:+ secret))).
Proof.
  intros H. specialize (H "" "secret").
  rewrite constructor_authorization in H. vm_compute in H. discriminate H.
Qed.

(** C5, amended: when both credentials are given and neither is the empty
    string, the [Authorization] header of the gateway is ["Basic "] followed
    by the base64 encoding of [id:secret], from which [id:secret] can be read
    back. The constructor sets it: in every world of every run the gateway
    holds this value, and every request sent carries it. *)
Theorem C5_basic_authorization
    (remote : list AxiosRequest -> AxiosRequest -> AxiosError + AxiosResponse)
    (id secret : string) (ops : list Op) :
  id <> "" -> secret <> "" ->
  let w := run remote (boot (Some id) (Some secret)) ops in
  let credential := Base64.encode (id +:+ ":" +:+ secret) in
  headers (api (this w)) !! "Authorization" = Some ("Basic " +:+ credential)
  /\ Base64.decode credential = Some (id +:+ ":" +:+ secret)
  /\ forall r, In r (wire w) ->
       req_headers r !! "Authorization" = Some ("Basic " +:+ credential).
Proof.
  intros Hid Hsecret w credential. subst w credential.
  pose proof (constructor_authorization (Some id) (Some secret)) as Hc.
  rewrite (authorization_truthy id secret Hid Hsecret) in Hc.
  split; [now rewrite run_api|].
  split; [apply decode_encode|].
  intros r Hr. apply wire_of_client in Hr as [_ ->]. exact Hc.
Qed.

(** C5 on the credentials of the README. *)
Lemma C5_witness :
  let w := run canned (boot (Some "clientId") (Some "clientSecret"))
             [Call Transactions (Some page_1_limit_100_desc); CallInitSocket] in
  let credential := Base64.encode "clientId:clientSecret" in
  headers (api (this w)) !! "Authorization" = Some ("Basic " +:+ credential)
  /\ Base64.decode credential = Some "clientId:clientSecret"
  /\ forall r, In r (wire w) ->
       req_headers r !! "Authorization" = Some ("Basic " +:+ credential).
Proof.
  apply (C5_basic_authorization canned "clientId" "clientSecret"
           [Call Transactions (Some page_1_limit_100_desc); CallInitSocket]);
    discriminate.
Defined.

(** C6, as stated, fails: a client made without credentials sends the
    [Authorization] header with the empty string as its value. *)
Lemma C6_counterexample :
  ~ (forall (remote : list AxiosRequest -> AxiosRequest -> AxiosError + AxiosResponse)
            (clientId clientSecret : option string) (ops : list Op) (r : AxiosRequest),
       clientId = None \/ clientSecret = None ->
       In r (wire (run remote (boot clientId clientSecret) ops)) ->
       req_headers r !! "Authorization" = None).
Proof.
  intros H.
  specialize (H offline None None [Call Items None] _
                (or_introl eq_refl) (or_introl eq_refl)).
  cbn [req_headers] in H.
  change (headers (api (constructor None None)) !! "Authorization" = None) in H.
  rewrite constructor_authorization in H. discriminate H.
Qed.

(** C6, amended: when a credential is absent, or is the empty string,
    every request of the client carries the [Authorization] header with the
    empty string as its value: the header is there, and no credential is in
    it. *)
Theorem C6_empty_authorization
    (remote : list AxiosRequest -> AxiosRequest -> AxiosError + AxiosResponse)
    (clientId clientSecret : option string) (ops : list Op) (r : AxiosRequest) :
  truthy clientId && truthy clientSecret = false ->
  In r (wire (run remote (boot clientId clientSecret) ops)) ->
  req_headers r !! "Authorization" = Some "".
Proof.
  intros Hfalsy Hr. apply wire_of_client in Hr as [_ ->].
  rewrite constructor_authorization. now rewrite authorization_falsy.
Qed.

(** C6 on a client given a secret and no id. *)
Lemma C6_witness :
  truthy None && truthy (Some "clientSecret") = false
  /\ In {| method := "get"; req_baseURL := "https://api.skinport.com/v1";
           url := "/items";
           req_headers := headers (api (constructor None (Some "clientSecret")));
           params := Some [] |}
        (wire (run offline (boot None (Some "clientSecret")) [CallInitSocket; Call Items None]))
  /\ req_headers {| method := "get"; req_baseURL := "https://api.skinport.com/v1";
                    url := "/items";
                    req_headers := headers (api (constructor None (Some "clientSecret")));
                    params := Some [] |} !! "Authorization" = Some "".
Proof.
  split; [reflexivity|].
  split; [left; reflexivity|].
  apply (C6_empty_authorization offline None (Some "clientSecret")
           [CallInitSocket; Call Items None]).
  - reflexivity.
  - left. reflexivity.
Defined.

(** What axios writes for the two requests of the examples. *)
Lemma path_and_query_items (encode : string -> string) r :
  url r = "/items" -> params r = Some [] ->
  path_and_query encode r = Some "/items".
Proof. intros Hu Hp. unfold path_and_query. now rewrite Hu, Hp. Qed.

Lemma path_and_query_transactions (encode : string -> string) r :
  url r = "/account/transactions" -> params r = Some page_1_limit_100_desc ->
  path_and_query encode r
  = Some ("/account/transactions?"
          +:+ String.concat "&" [encode "page" +:+ "=" +:+ encode "1";
                                 encode "limit" +:+ "=" +:+ encode "100";
                                 encode "order" +:+ "=" +:+ encode "desc"]).
Proof.
  intros Hu Hp. unfold path_and_query. rewrite Hu, Hp. reflexivity.
Qed.

(** C7, as stated, fails in its last part: a client made without
    credentials still sends the [Authorization] header with
    [getTransactions], its value the empty string. *)
Lemma C7_counterexample :
  ~ (forall (remote : list AxiosRequest -> AxiosRequest -> AxiosError + AxiosResponse)
            (clientId clientSecret : option string) (r : AxiosRequest),
       wire (fst (getTransactions remote (Some page_1_limit_100_desc)
                    (boot clientId clientSecret))) = [r] ->
       (is_Some (req_headers r !! "Authorization")
        <-> is_Some clientId /\ is_Some clientSecret)).
Proof.
  intros H.
  destruct (H offline None None _ eq_refl) as [H1 _].
  destruct H1 as [[id Hid] _]; [|discriminate Hid].
  cbn [req_headers].
  change (is_Some (headers (api (constructor None None)) !! "Authorization")).
  rewrite constructor_authorization. eauto.
Qed.

(** C7, amended: each marketplace call sends one request: a GET to the
    fixed path of the operation under the base URL, its [params] the
    caller's option record as given ([getItems] without a record sends the
    empty record), its headers those of the gateway; nothing else in the
    world changes, and the call returns the [data] of the response as axios
    gives it, or the rejection. [getItems({})] asks for [/items] with no
    query; [getTransactions({page: 1, limit: 100, order: "desc"})] asks for
    [/account/transactions?page=1&limit=100&order=desc]. The [Authorization]
    header is sent on every request: it holds a Basic credential exactly
    when both credentials were given and non-empty, and is the empty string
    otherwise. *)
Theorem C7_one_get_options_verbatim
    (remote : list AxiosRequest -> AxiosRequest -> AxiosError + AxiosResponse)
    (clientId clientSecret : option string) (ops : list Op)
    (e : Endpoint) (options : option JsObject) :
  let w := run remote (boot clientId clientSecret) ops in
  let (w', result) := call remote e options w in
  exists req,
    (wire w' = wire w ++ [req] /\ this w' = this w /\ sockets w' = sockets w
     /\ promises w' = promises w /\ settled w' = settled w)
    /\ (method req = "get" /\ req_baseURL req = "https://api.skinport.com/v1"
        /\ url req = path_of e)
    /\ (params req = match e with Items => Some (default [] options) | _ => options end
        /\ forall o, options = Some o -> params req = Some o)
    /\ (req_headers req !! "Authorization" = Some (authorization clientId clientSecret)
        /\ (authorization clientId clientSecret <> ""
            <-> truthy clientId && truthy clientSecret = true))
    /\ (result = body (remote (wire w) req)
        /\ (forall resp, remote (wire w) req = inr resp -> result = inr (data resp))
        /\ (forall err, remote (wire w) req = inl err -> result = inl err))
    /\ (forall encode, e = Items -> options = Some [] ->
          path_and_query encode req = Some "/items")
    /\ (forall encode, e = Transactions -> options = Some page_1_limit_100_desc ->
          path_and_query encode req
          = Some ("/account/transactions?"
                  +:+ String.concat "&" [encode "page" +:+ "=" +:+ encode "1";
                                         encode "limit" +:+ "=" +:+ encode "100";
                                         encode "order" +:+ "=" +:+ encode "desc"]))
    /\ (e = Transactions -> options = Some page_1_limit_100_desc ->
          path_and_query (fun s => s) req
          = Some "/account/transactions?page=1&limit=100&order=desc").
Proof.
  intros w. rewrite call_frame.
  match goal with |- context [with_wire (wire w ++ [?r]) w] => set (req := r) end.
  exists req.
  assert (api (this w) = api (constructor clientId clientSecret)) as Hapi
    by apply run_api.
  split; [repeat split|]. split; [repeat split|].
  { subst req. cbn. now rewrite Hapi. }
  split.
  { split; [reflexivity|]. intros o ->. subst req. now destruct e. }
  split.
  { split; [|apply authorization_nonempty].
    subst req. cbn [req_headers]. rewrite Hapi. apply constructor_authorization. }
  split.
  { split; [reflexivity|]. split; intros x Hx; now rewrite Hx. }
  split; [|split].
  - intros encode -> ->. now apply path_and_query_items.
  - intros encode -> ->. now apply path_and_query_transactions.
  - intros -> ->. now rewrite (path_and_query_transactions (fun s => s)).
Qed.

(** C7 on [getTransactions] after a [getItems], against a server that
    answers every request with [sample_body]. *)
Lemma C7_witness :
  let w := run canned (boot (Some "clientId") (Some "clientSecret")) [Call Items (Some [])] in
  let (w', result) := call canned Transactions (Some page_1_limit_100_desc) w in
  exists req,
    wire w' = wire w ++ [req]
    /\ method req = "get" /\ url req = "/account/transactions"
    /\ params req = Some page_1_limit_100_desc
    /\ req_headers req !! "Authorization" = Some "Basic Y2xpZW50SWQ6Y2xpZW50U2VjcmV0"
    /\ result = inr sample_body
    /\ path_and_query (fun s => s) req
       = Some "/account/transactions?page=1&limit=100&order=desc".
Proof.
  pose proof (C7_one_get_options_verbatim canned (Some "clientId") (Some "clientSecret")
                [Call Items (Some [])] Transactions (Some page_1_limit_100_desc)) as H.
  cbv zeta in H |- *.
  destruct (call canned Transactions (Some page_1_limit_100_desc)
              (run canned (boot (Some "clientId") (Some "clientSecret"))
                 [Call Items (Some [])])) as [w' result].
  destruct H as (req & (Hw & _) & (Hm & _ & Hu) & (_ & Hp) & (Ha & _)
                 & (_ & Hr & _) & _ & _ & Hq).
  exists req. repeat split; try assumption.
  - apply Hp. reflexivity.
  - apply (Hr {| status := 200; data := sample_body |}). reflexivity.
  - apply Hq; reflexivity.
Defined.

(** C8, as stated, fails: [getItems({})] hands the gateway a request with
    no [app_id] among its parameters, not with [app_id = 730]. *)
Lemma C8_counterexample :
  ~ (forall (remote : list AxiosRequest -> AxiosRequest -> AxiosError + AxiosResponse)
            (options : JsObject) (r : AxiosRequest),
       field "app_id" options = None ->
       wire (fst (getItems remote (Some options) (boot None None))) = [r] ->
       param "app_id" r = Some (JNumber 730)).
Proof.
  intros H. specialize (H offline [] _ eq_refl eq_refl). discriminate H.
Qed.

(** C8, amended: no default is applied anywhere in the client. The request
    a marketplace call sends has exactly the caller's option record as its
    parameters, so an option the caller left out is left out of the request;
    a call without a record sends no parameter at all; and the gateway sends
    the parameters it is given. *)
Theorem C8_no_default_applied
    (remote : list AxiosRequest -> AxiosRequest -> AxiosError + AxiosResponse)
    (e : Endpoint) (w : World) :
  (forall o, exists req,
      wire (fst (call remote e (Some o) w)) = wire w ++ [req]
      /\ params req = Some o
      /\ (forall k, param k req = field k o)
      /\ (forall k, field k o = None -> param k req = None))
  /\ (exists req,
        wire (fst (call remote e None w)) = wire w ++ [req]
        /\ forall k, param k req = None)
  /\ (forall path ps, exists req,
        wire (fst (api_get remote path ps w)) = wire w ++ [req]
        /\ url req = path /\ params req = ps).
Proof.
  split; [|split].
  - intros o. rewrite call_frame. eexists. split; [reflexivity|].
    unfold param. destruct e; cbn; repeat split; auto.
  - rewrite call_frame. eexists. split; [reflexivity|].
    intros k. unfold param. now destruct e.
  - intros path ps. eexists. split; [reflexivity|]. split; reflexivity.
Qed.

(** C8 on [getSalesHistory] with [market_hash_name] alone. *)
Lemma C8_witness :
  exists req,
    wire (fst (call offline SalesHistory
                 (Some [("market_hash_name", JString "Glove Case")]) (boot None None)))
    = [req]
    /\ param "market_hash_name" req = Some (JString "Glove Case")
    /\ param "app_id" req = None
    /\ param "currency" req = None.
Proof.
  destruct (proj1 (C8_no_default_applied offline SalesHistory (boot None None))
              [("market_hash_name", JString "Glove Case")])
    as (req & Hw & _ & Hk & Hnone).
  exists req. split; [exact Hw|]. split; [apply Hk|].
  split; apply Hnone; reflexivity.
Defined.

(** * More on the socket: the shape of every world *)

Section Shapes.

Variable remote : list AxiosRequest -> AxiosRequest -> AxiosError + AxiosResponse.

Lemma Shape_boot clientId clientSecret : Shape 0 (boot clientId clientSecret).
Proof. repeat split. Qed.

(** An event on the opened socket runs both listeners: one writes a line
    and settles promise 0, the other hears nothing. *)
Lemma emit_opened ev w :
  sockets w = [opened_socket 0] ->
  emit 0 ev w = settle 0 (outcome ev) (console_log (line_of ev) w).
Proof.
  intros H. unfold emit. rewrite H. destruct ev; reflexivity.
Qed.

(** An event on a socket that does not exist is lost. *)
Lemma emit_lost s ev w :
  sockets w !! s = None -> emit s ev w = w.
Proof. intros H. unfold emit. now rewrite H. Qed.

Lemma Shape_settle_first k o w :
  Shape (S k) w -> Shape (S k) (settle 0 o w).
Proof.
  intros (Hs & Hso & first & Hp). unfold settle. rewrite Hp. cbn [lookup list_lookup].
  destruct first; repeat split; eauto.
Qed.

Lemma Shape_step n w o :
  Shape n w -> Shape (n + (if is_init o then 1 else 0)) (step remote w o).
Proof.
  intros H. destruct o as [| |e options|s ev]; cbn [step is_init];
    rewrite ?Nat.add_0_r, ?Nat.add_1_r.
  - destruct n as [|k].
    + destruct H as (Hs & Hso & Hp).
      rewrite (initSocket_fresh _ Hs). cbn [fst]. rewrite Hso, Hp.
      repeat split. now exists Pending.
    + destruct H as (Hs & Hso & first & Hp).
      pose proof (initSocket_debounce w 0 Hs) as Hd.
      destruct (initSocket w) as [w' q]. cbn [fst].
      destruct Hd as (Ht & Hso' & _ & _ & _ & Hp').
      split; [now rewrite Ht|]. split; [now rewrite Hso'|].
      exists first. rewrite Hp', Hp. cbn. now rewrite <- replicate_S_end.
  - exact H.
  - rewrite call_frame. exact H.
  - destruct n as [|k].
    + destruct H as (Hs & Hso & Hp).
      rewrite emit_lost by now rewrite Hso. now repeat split.
    + destruct s as [|s].
      * rewrite emit_opened by apply H.
        apply Shape_settle_first. exact H.
      * rewrite emit_lost; [exact H|].
        destruct H as (_ & -> & _). reflexivity.
Qed.

Lemma init_calls_cons o ops :
  init_calls (o :: ops) = (if is_init o then 1 else 0) + init_calls ops.
Proof. unfold init_calls. cbn. now destruct (is_init o). Qed.

Lemma Shape_run ops : forall n w,
  Shape n w -> Shape (n + init_calls ops) (run remote w ops).
Proof.
  induction ops as [|o ops IH]; intros n w H.
  - cbn. now rewrite Nat.add_0_r.
  - rewrite init_calls_cons, Nat.add_assoc. cbn. apply IH. now apply Shape_step.
Qed.

Lemma Shape_reachable clientId clientSecret ops :
  Shape (init_calls ops) (run remote (boot clientId clientSecret) ops).
Proof. exact (Shape_run ops 0 _ (Shape_boot clientId clientSecret)). Qed.

Lemma init_calls_invoked ops : invoked ops = negb (Nat.eqb (init_calls ops) 0).
Proof.
  induction ops as [|o ops IH]; [reflexivity|].
  rewrite init_calls_cons. cbn [invoked existsb]. fold (invoked ops).
  destruct (is_init o); [reflexivity|]. exact IH.
Qed.

(** A step that is not an event leaves a pending promise pending, once the
    socket exists: the debounce settles its own promise and no other. *)
Lemma step_pending p w o s :
  is_emit o = false -> _socket (this w) = Some s ->
  promises w !! p = Some Pending ->
  promises (step remote w o) !! p = Some Pending.
Proof.
  intros Ho Hs Hp. destruct o as [| |e options|s' ev]; cbn [step]; try discriminate.
  - pose proof (initSocket_debounce w s Hs) as Hd.
    destruct (initSocket w) as [w' q]. cbn [fst].
    destruct Hd as (_ & _ & _ & _ & _ & ->).
    rewrite lookup_app_l; [exact Hp | now apply lookup_lt_Some in Hp].
  - exact Hp.
  - now rewrite call_frame.
Qed.

Lemma run_pending p ops : forall w s,
  forallb (fun o => negb (is_emit o)) ops = true ->
  _socket (this w) = Some s ->
  promises w !! p = Some Pending ->
  promises (run remote w ops) !! p = Some Pending.
Proof.
  induction ops as [|o ops IH]; intros w s Hops Hs Hp; [exact Hp|].
  cbn in Hops. apply andb_true_iff in Hops as [Ho Hops].
  apply negb_true_iff in Ho.
  cbn. apply (IH _ s Hops).
  - now apply step_socket.
  - now apply (step_pending p w o s).
Qed.

(** Only an event writes to the console. *)
Lemma step_console w o :
  is_emit o = false -> console (step remote w o) = console w.
Proof.
  intros Ho. destruct o as [| |e options|s ev]; cbn [step]; try discriminate.
  - destruct (_socket (this w)) as [s|] eqn:Hs.
    + pose proof (initSocket_debounce w s Hs) as Hd.
      destruct (initSocket w) as [w' q]. cbn [fst].
      now destruct Hd as (_ & _ & _ & Hc & _).
    + now rewrite (initSocket_fresh _ Hs).
  - reflexivity.
  - now rewrite call_frame.
Qed.

End Shapes.

(** * More on the socket: what follows from the shape *)

Lemma initSocket_returns w : snd (initSocket w) = length (promises w).
Proof.
  destruct (_socket (this w)) as [s|] eqn:Hs.
  - now rewrite (initSocket_assigned _ _ Hs).
  - now rewrite (initSocket_fresh _ Hs).
Qed.

(** The first call on a client that has no socket, in full. *)
Lemma initSocket_first w :
  Shape 0 w ->
  initSocket w
  = ({| this := {| api := api (this w); _socket := Some 0 |};
        sockets := [opened_socket 0];
        promises := [Pending];
        settled := settled w; console := console w; wire := wire w |}, 0).
Proof.
  intros (Hs & Hso & Hp). rewrite (initSocket_fresh _ Hs). now rewrite Hso, Hp.
Qed.

Lemma unset_is_Shape_0 n w : Shape n w -> _socket (this w) = None -> Shape 0 w.
Proof.
  intros H Hs. destruct n as [|k]; [exact H|].
  destruct H as (Hs' & _). congruence.
Qed.

(** X1: the early second call. On a client with no socket, a second call of
    [initSocket] made before any event returns a promise that is fulfilled
    while the promise of the first call is still pending, and opens nothing.
    If the handshake then fails, the first promise is rejected and the second
    stays fulfilled, whatever happens later. *)
Theorem X1_second_call_fulfilled_before_handshake
    (remote : list AxiosRequest -> AxiosRequest -> AxiosError + AxiosResponse)
    (clientId clientSecret : option string) (ops later : list Op) (err : string) :
  let w := run remote (boot clientId clientSecret) ops in
  _socket (this w) = None ->
  let (w1, p) := initSocket w in
  let (w2, q) := initSocket w1 in
  let w3 := run remote (emit 0 (connect_error err) w2) later in
  p <> q
  /\ promises w2 !! p = Some Pending /\ promises w2 !! q = Some Fulfilled
  /\ sockets w2 = sockets w1 /\ length (sockets w2) = 1
  /\ promises w3 !! p = Some (Rejected err) /\ promises w3 !! q = Some Fulfilled.
Proof.
  intros w Hs.
  pose proof (unset_is_Shape_0 _ w (Shape_reachable remote clientId clientSecret ops) Hs)
    as H0.
  rewrite (initSocket_first w H0).
  match goal with |- context [initSocket ?x] => set (w1 := x) end.
  pose proof (initSocket_debounce w1 0 eq_refl) as Hd.
  destruct (initSocket w1) as [w2 q].
  destruct Hd as (Ht & Hso & _ & _ & -> & Hp). cbv zeta.
  assert (promises (emit 0 (connect_error err) w2) = [Rejected err; Fulfilled]) as Hp3.
  { rewrite emit_opened by exact Hso. unfold settle.
    cbn [promises console_log with_console]. rewrite Hp. reflexivity. }
  repeat split.
  - discriminate.
  - now rewrite Hp.
  - now rewrite Hp.
  - exact Hso.
  - now rewrite Hso.
  - apply run_keep; [now rewrite Hp3 | discriminate].
  - apply run_keep; [now rewrite Hp3 | discriminate].
Qed.

(** X1 on a new client, with a late [connect] after the failure. *)
Lemma X1_witness :
  let w := run offline (boot None None) [] in
  _socket (this w) = None
  /\ let (w1, p) := initSocket w in
     let (w2, q) := initSocket w1 in
     let w3 := run offline (emit 0 (connect_error "timeout") w2) [Emit 0 connect] in
     p <> q
     /\ promises w2 !! p = Some Pending /\ promises w2 !! q = Some Fulfilled
     /\ sockets w2 = sockets w1 /\ length (sockets w2) = 1
     /\ promises w3 !! p = Some (Rejected "timeout") /\ promises w3 !! q = Some Fulfilled.
Proof.
  split; [reflexivity|].
  apply (X1_second_call_fulfilled_before_handshake offline None None []
           [Emit 0 connect] "timeout").
  reflexivity.
Defined.

(** X2: only the first promise can fail. In every run the client has made
    one promise per call of [initSocket], the next call returns the promise
    numbered by the calls made so far, and every promise but that of the
    first call is fulfilled. *)
Theorem X2_later_promises_fulfilled
    (remote : list AxiosRequest -> AxiosRequest -> AxiosError + AxiosResponse)
    (clientId clientSecret : option string) (ops : list Op) :
  let w := run remote (boot clientId clientSecret) ops in
  length (promises w) = init_calls ops
  /\ snd (initSocket w) = init_calls ops
  /\ forall q, 0 < q -> q < init_calls ops -> promises w !! q = Some Fulfilled.
Proof.
  intros w. pose proof (Shape_reachable remote clientId clientSecret ops) as H.
  fold w in H. rewrite initSocket_returns.
  destruct (init_calls ops) as [|k].
  - destruct H as (_ & _ & ->). repeat split. intros q Hq Hq'. lia.
  - destruct H as (_ & _ & first & ->).
    cbn [length]. rewrite length_replicate. repeat split.
    intros [|q] Hq Hq'; [lia|]. cbn. apply lookup_replicate_2. lia.
Qed.

(** X2 on a run whose handshake fails between three calls. *)
Lemma X2_witness :
  let w := run offline (boot None None)
             [CallInitSocket; Emit 0 (connect_error "refused"); CallInitSocket;
              CallInitSocket] in
  promises w !! 0 = Some (Rejected "refused")
  /\ promises w !! 1 = Some Fulfilled /\ promises w !! 2 = Some Fulfilled.
Proof.
  pose proof (X2_later_promises_fulfilled offline None None
                [CallInitSocket; Emit 0 (connect_error "refused"); CallInitSocket;
                 CallInitSocket]) as (_ & _ & H).
  split; [reflexivity|].
  split; apply H; cbn; lia.
Defined.

(** X3: one socket, two listeners. In every run in which [initSocket] has
    been called, whatever the number of calls and events, there is exactly
    the socket opened to [wss://skinport.com] with the options of the source
    and the two listeners of the first call; no call adds a listener. In a
    run without such a call there is no socket. *)
Theorem X3_one_socket_two_listeners
    (remote : list AxiosRequest -> AxiosRequest -> AxiosError + AxiosResponse)
    (clientId clientSecret : option string) (ops : list Op) :
  sockets (run remote (boot clientId clientSecret) ops)
  = if invoked ops then [opened_socket 0] else [].
Proof.
  pose proof (Shape_reachable remote clientId clientSecret ops) as H.
  rewrite init_calls_invoked.
  destruct (init_calls ops) as [|k]; cbn; apply H.
Qed.

(** X4: what an event does. Once [initSocket] has been called, each event
    on the socket writes one line to the console, [connect] or
    [connect_error], settled promise or not, and changes neither the client
    object nor the socket nor the requests sent. An event before the first
    call, or on any other socket, changes nothing. No other step writes to
    the console. *)
Theorem X4_events_log_one_line
    (remote : list AxiosRequest -> AxiosRequest -> AxiosError + AxiosResponse)
    (clientId clientSecret : option string) (ops : list Op) :
  let w := run remote (boot clientId clientSecret) ops in
  (invoked ops = true ->
   forall ev, console (emit 0 ev w) = console w ++ [line_of ev]
              /\ this (emit 0 ev w) = this w /\ sockets (emit 0 ev w) = sockets w
              /\ wire (emit 0 ev w) = wire w)
  /\ (forall s ev, invoked ops = false \/ s <> 0 -> emit s ev w = w)
  /\ (forall o, is_emit o = false -> console (step remote w o) = console w).
Proof.
  intros w. pose proof (Shape_reachable remote clientId clientSecret ops) as H.
  fold w in H. rewrite init_calls_invoked.
  split; [|split].
  - intros Hi ev. destruct (init_calls ops) as [|k]; [discriminate|].
    destruct (emit_frame 0 ev w) as (Ht & Hso & Hw).
    repeat split; try assumption.
    rewrite emit_opened by apply H.
    now destruct (settle_frame 0 (outcome ev) (console_log (line_of ev) w))
      as (_ & _ & _ & ->).
  - intros s ev Hor. apply emit_lost.
    destruct (init_calls ops) as [|k].
    + now destruct H as (_ & -> & _).
    + destruct H as (_ & -> & _).
      destruct Hor as [Hi|Hs]; [discriminate|].
      destruct s; [congruence | reflexivity].
  - intros o Ho. now apply step_console.
Qed.

(** X4 on a client whose handshake fails and then succeeds. *)
Lemma X4_witness :
  console (run offline (boot None None)
             [Emit 0 connect; CallInitSocket; Emit 0 (connect_error "timeout");
              Emit 1 connect; Emit 0 connect; CallInitSocket])
  = ["Connection Error: timeout"; "Connected to Skinport WebSocket"]
  /\ console (emit 0 connect (run offline (boot None None) [CallInitSocket; Emit 0 connect]))
     = ["Connected to Skinport WebSocket"; "Connected to Skinport WebSocket"].
Proof.
  split; [reflexivity|].
  apply (proj1 (X4_events_log_one_line offline None None [CallInitSocket; Emit 0 connect])
           eq_refl connect).
Defined.

(** X5: no timeout. On a client with no socket, the promise of [initSocket]
    stays pending, and unsettled, for as long as the transport emits no
    event: no call of the client settles it. *)
Theorem X5_pending_without_event
    (remote : list AxiosRequest -> AxiosRequest -> AxiosError + AxiosResponse)
    (clientId clientSecret : option string) (ops calls : list Op) :
  let w := run remote (boot clientId clientSecret) ops in
  _socket (this w) = None ->
  forallb (fun o => negb (is_emit o)) calls = true ->
  let (w1, p) := initSocket w in
  promises (run remote w1 calls) !! p = Some Pending
  /\ settlements p (run remote w1 calls) = 0.
Proof.
  intros w Hs Hcalls.
  pose proof (Inv_initSocket w (Inv_reachable remote clientId clientSecret ops)) as HI.
  rewrite (initSocket_fresh _ Hs) in *. cbn [fst] in HI.
  match type of HI with Inv ?x => set (w1 := x) in * end.
  assert (promises (run remote w1 calls) !! length (promises w) = Some Pending) as Hp.
  { apply (run_pending remote _ calls w1 (length (sockets w)) Hcalls eq_refl).
    subst w1. cbn. now apply list_lookup_middle. }
  split; [exact Hp|].
  destruct (Inv_run remote calls w1 HI) as [_ Hc]. now rewrite Hc, Hp.
Qed.

(** X5 on a client that goes on calling without hearing from the
    transport. *)
Lemma X5_witness :
  let w := run canned (boot None None) [Call Items None] in
  let calls := [CallInitSocket; Call OutOfStock None; ReadSocket; CallInitSocket] in
  _socket (this w) = None
  /\ forallb (fun o => negb (is_emit o)) calls = true
  /\ let (w1, p) := initSocket w in
     promises (run canned w1 calls) !! p = Some Pending
     /\ settlements p (run canned w1 calls) = 0.
Proof.
  split; [reflexivity|]. split; [reflexivity|].
  apply (X5_pending_without_event canned None None [Call Items None]
           [CallInitSocket; Call OutOfStock None; ReadSocket; CallInitSocket]);
    reflexivity.
Defined.

(** * More on the gateway *)

Section Wire.

Variable remote : list AxiosRequest -> AxiosRequest -> AxiosError + AxiosResponse.

Lemma step_wire w o :
  wire (step remote w o)
  = wire w ++ match request_of (api (this w)) o with Some r => [r] | None => [] end.
Proof.
  destruct o as [| |e options|s ev]; cbn [step request_of].
  - rewrite (proj2 (initSocket_this w)). now rewrite app_nil_r.
  - now rewrite app_nil_r.
  - now rewrite call_frame.
  - destruct (emit_frame s ev w) as (_ & _ & ->). now rewrite app_nil_r.
Qed.

Lemma run_wire ops : forall w,
  wire (run remote w ops) = wire w ++ omap (request_of (api (this w))) ops.
Proof.
  induction ops as [|o ops IH]; intros w; [cbn; now rewrite app_nil_r|].
  cbn [run fold_left]. fold (run remote (step remote w o) ops).
  rewrite IH, step_wire, step_api, <- app_assoc. f_equal.
  cbn [omap list_omap]. now destruct (request_of (api (this w)) o).
Qed.

(** The steps of a client do not read what the server answered. *)
Lemma step_blind (remote' : list AxiosRequest -> AxiosRequest -> AxiosError + AxiosResponse)
    w o :
  step remote w o = step remote' w o.
Proof.
  destruct o as [| |e options|s ev]; cbn [step]; try reflexivity.
  now rewrite !call_frame.
Qed.

End Wire.

(** X6: the requests of a run. The requests a client has sent are those of
    its marketplace calls, one for each call, in the order of the calls,
    each with the path of its operation and the options of its caller;
    calls of [initSocket], reads of the getter and events of the transport
    send nothing, and neither the answers of the server nor the state of the
    socket change what is sent. *)
Theorem X6_requests_are_the_calls
    (remote : list AxiosRequest -> AxiosRequest -> AxiosError + AxiosResponse)
    (clientId clientSecret : option string) (ops : list Op) :
  wire (run remote (boot clientId clientSecret) ops)
  = omap (request_of (api (constructor clientId clientSecret))) ops.
Proof. exact (run_wire remote ops (boot clientId clientSecret)). Qed.

(** X7: the configuration of the gateway. Every request of every run is a
    GET under [https://api.skinport.com/v1] and carries the three headers
    the constructor configured: [Accept-Encoding: br],
    [Content-Type: application/json] and its [Authorization] value. *)
Theorem X7_every_request_as_configured
    (remote : list AxiosRequest -> AxiosRequest -> AxiosError + AxiosResponse)
    (clientId clientSecret : option string) (ops : list Op) (r : AxiosRequest) :
  In r (wire (run remote (boot clientId clientSecret) ops)) ->
  method r = "get"
  /\ req_baseURL r = "https://api.skinport.com/v1"
  /\ req_headers r !! "Accept-Encoding" = Some "br"
  /\ req_headers r !! "Content-Type" = Some "application/json"
  /\ req_headers r !! "Authorization" = Some (authorization clientId clientSecret).
Proof.
  intros Hr. rewrite (run_wire remote ops (boot clientId clientSecret)) in Hr.
  cbn [wire boot app] in Hr. apply list_elem_of_In, list_elem_of_omap in Hr as (o & _ & Ho).
  destruct o as [| |e options|s ev]; try discriminate Ho.
  injection Ho as <-. cbn [method req_baseURL req_headers].
  split; [reflexivity|]. split; [reflexivity|].
  split; [reflexivity|]. split; [reflexivity|].
  apply constructor_authorization.
Qed.

(** X7 on the second request of a client without credentials. *)
Lemma X7_witness :
  let r := {| method := "get"; req_baseURL := "https://api.skinport.com/v1";
              url := "/sales/history";
              req_headers := headers (api (constructor None None));
              params := Some [("currency", JString "USD")] |} in
  In r (wire (run offline (boot None None)
                [Call Items None; CallInitSocket;
                 Call SalesHistory (Some [("currency", JString "USD")])]))
  /\ method r = "get"
  /\ req_headers r !! "Accept-Encoding" = Some "br"
  /\ req_headers r !! "Content-Type" = Some "application/json"
  /\ req_headers r !! "Authorization" = Some "".
Proof.
  split; [right; left; reflexivity|].
  destruct (X7_every_request_as_configured offline None None
              [Call Items None; CallInitSocket;
               Call SalesHistory (Some [("currency", JString "USD")])]
              {| method := "get"; req_baseURL := "https://api.skinport.com/v1";
                 url := "/sales/history";
                 req_headers := headers (api (constructor None None));
                 params := Some [("currency", JString "USD")] |})
    as (H0 & _ & H1 & H2 & H3); [right; left; reflexivity|].
  split; [exact H0|]. split; [exact H1|]. split; [exact H2|]. exact H3.
Defined.

(** X8: nothing is kept from a response. The world after a run is the same
    whatever the server answered: the client stores no response, repeats no
    request and changes no later request because of an answer or an error. *)
Theorem X8_answers_leave_no_trace
    (remote remote' : list AxiosRequest -> AxiosRequest -> AxiosError + AxiosResponse)
    (w : World) (ops : list Op) :
  run remote w ops = run remote' w ops.
Proof.
  revert w. induction ops as [|o ops IH]; intros w; [reflexivity|].
  cbn [run fold_left]. fold (run remote (step remote w o) ops).
  fold (run remote' (step remote' w o) ops).
  now rewrite (step_blind remote remote'), IH.
Qed.

(** * More on the constructor: the credential *)

Section Credential.
Import Base64.

Lemma get_In s : forall n c, String.get n s = Some c -> In c (list_ascii_of_string s).
Proof.
  induction s as [|d s IH]; intros n c H; [discriminate|].
  destruct n as [|n]; cbn in H |- *.
  - left. congruence.
  - right. now apply (IH n).
Qed.

Lemma is_b64_digit i : is_b64 (digit i) = true.
Proof.
  unfold is_b64, digit. destruct (String.get (N.to_nat i) alphabet) as [c|] eqn:H.
  - apply orb_true_iff. left. apply existsb_exists.
    exists c. split; [now apply (get_In _ _ _ H) | apply Ascii.eqb_refl].
  - apply orb_true_iff. right. apply Ascii.eqb_refl.
Qed.

Lemma is_b64_pad : is_b64 pad = true.
Proof. reflexivity. Qed.

Lemma encode_bytes_b64 bs : forall c, In c (encode_bytes bs) -> is_b64 c = true.
Proof.
  induction bs as [| a | a b | a b c' l IH] using list_ind3; intros c Hc.
  - destruct Hc.
  - rewrite encode_bytes_one in Hc.
    destruct Hc as [<-|[<-|[<-|[<-|[]]]]];
      [apply is_b64_digit | apply is_b64_digit | apply is_b64_pad | apply is_b64_pad].
  - rewrite encode_bytes_two in Hc.
    destruct Hc as [<-|[<-|[<-|[<-|[]]]]];
      [apply is_b64_digit | apply is_b64_digit | apply is_b64_digit | apply is_b64_pad].
  - rewrite encode_bytes_step in Hc.
    destruct Hc as [<-|[<-|[<-|[<-|Hc]]]]; try apply is_b64_digit.
    now apply IH.
Qed.

Lemma length_string_of_list_ascii cs :
  String.length (string_of_list_ascii cs) = length cs.
Proof. induction cs as [|c cs IH]; cbn; [reflexivity | now rewrite IH]. Qed.

Lemma length_list_ascii_of_string s :
  length (list_ascii_of_string s) = String.length s.
Proof. induction s as [|c s IH]; cbn; [reflexivity | now rewrite IH]. Qed.

Lemma length_append s t : String.length (s +:+ t) = String.length s + String.length t.
Proof.
  induction s as [|c s IH]; [reflexivity|].
  change (S (String.length (s +:+ t)) = S (String.length s + String.length t)).
  now rewrite IH.
Qed.

Lemma encode_length s :
  String.length (encode s) = 4 * ((String.length s + 2) / 3).
Proof.
  unfold encode, bytes_of.
  now rewrite length_string_of_list_ascii, encode_bytes_length,
    length_map, length_list_ascii_of_string.
Qed.

Lemma encode_b64 s c : In c (list_ascii_of_string (encode s)) -> is_b64 c = true.
Proof.
  unfold encode. rewrite list_ascii_of_string_of_list_ascii. apply encode_bytes_b64.
Qed.

Lemma basic_inj s t : "Basic " +:+ s = "Basic " +:+ t -> s = t.
Proof. intros H. cbv [String.append] in H. congruence. Qed.

End Credential.

(** X9: the credential is plain base64. When both credentials are given
    and non-empty, the header is ["Basic "] followed by a token of four
    characters for every three bytes of [id:secret], rounded up, each a
    letter, a digit, [+], [/] or [=]: whatever bytes the credentials hold,
    the header has no space, carriage return or line feed after the
    scheme. *)
Theorem X9_credential_is_base64 (id secret : string) :
  id <> "" -> secret <> "" ->
  exists token,
    authorization (Some id) (Some secret) = "Basic " +:+ token
    /\ String.length token = 4 * ((String.length id + String.length secret + 3) / 3)
    /\ forall c, In c (list_ascii_of_string token) ->
         is_b64 c = true
         /\ c <> " "%char /\ c <> "013"%char /\ c <> "010"%char.
Proof.
  intros Hid Hsecret. exists (Base64.encode (id +:+ ":" +:+ secret)).
  split; [now apply authorization_truthy|]. split.
  - rewrite encode_length, !length_append. cbn [String.length].
    do 2 f_equal. lia.
  - intros c Hc. apply encode_b64 in Hc.
    repeat split; try exact Hc; intros ->; discriminate Hc.
Qed.

(** X9 on a secret that holds a line break. *)
Lemma X9_witness :
  exists token,
    authorization (Some "id") (Some (String "010"%char "secret")) = "Basic " +:+ token
    /\ String.length token = 16
    /\ forall c, In c (list_ascii_of_string token) ->
         is_b64 c = true
         /\ c <> " "%char /\ c <> "013"%char /\ c <> "010"%char.
Proof.
  apply (X9_credential_is_base64 "id" (String "010"%char "secret")); discriminate.
Defined.

(** X10: what the header tells apart. For credentials given and non-empty,
    two clients have the same [Authorization] header exactly when
    [Buffer.from] holds the same bytes for their [id:secret] strings. The
    pairs may differ: the colon may fall in the id or in the secret. *)
Theorem X10_header_determines_id_colon_secret (id secret id' secret' : string) :
  id <> "" -> secret <> "" -> id' <> "" -> secret' <> "" ->
  authorization (Some id) (Some secret) = authorization (Some id') (Some secret')
  <-> Base64.bytes_of (id +:+ ":" +:+ secret) = Base64.bytes_of (id' +:+ ":" +:+ secret').
Proof.
  intros H1 H2 H3 H4. rewrite !authorization_truthy by assumption. split.
  - intros H. apply basic_inj, encode_inj in H. now rewrite H.
  - intros H. unfold Base64.encode. now rewrite H.
Qed.

(** X10 on two pairs that share a header, and two that do not. *)
Lemma X10_witness :
  authorization (Some "a:b") (Some "c") = authorization (Some "a") (Some "b:c")
  /\ authorization (Some "a") (Some "b") <> authorization (Some "a") (Some "c").
Proof.
  split.
  - apply (proj2 (X10_header_determines_id_colon_secret "a:b" "c" "a" "b:c"
                    ltac:(discriminate) ltac:(discriminate)
                    ltac:(discriminate) ltac:(discriminate))).
    reflexivity.
  - intros H.
    apply (proj1 (X10_header_determines_id_colon_secret "a" "b" "a" "c"
                    ltac:(discriminate) ltac:(discriminate)
                    ltac:(discriminate) ltac:(discriminate))) in H.
    discriminate H.
Defined.
